(** * modular-monolith-mcp: rule search, ranking and result formatting

    A shallow embedding of the search pipeline of the server
    (src/modules/rule-search and src/modules/rule-catalog) together with the
    properties its specification states about it.

    Conventions of the embedding.
    - A JavaScript string is a sequence of UTF-16 code units.  It is modelled
      by [string], one [ascii] per code unit, so the model is exact on strings
      whose code units are below 256 (ASCII and Latin-1).  [toLowerCase],
      [trim] and [trimEnd] follow ECMAScript on that range.
    - A JavaScript number that holds a count, an index or a score is a [Z].
    - An array is a [list]; where a claim depends on which array object is
      written, arrays live in an explicit store (see [Store]). *)

From Stdlib Require Import ZArith Ascii String List Bool Lia Sorted.
From stdpp Require Import gmap strings list.

Local Open Scope Z_scope.

(** ** JavaScript strings *)

Module Js.

(** One code unit, as a number. *)
Definition unit_code (c : ascii) : N := N_of_ascii c.

(** [String.prototype.toLowerCase] on one code unit below 256: the letters
    A-Z, and the Latin-1 capitals U+00C0..U+00DE except the multiplication
    sign U+00D7, move up by 32; every other unit is kept. *)
Definition lowerUnit (c : ascii) : ascii :=
  let n := unit_code c in
  if ((65 <=? n) && (n <=? 90))%N
     || ((192 <=? n) && (n <=? 214))%N
     || ((216 <=? n) && (n <=? 222))%N
  then ascii_of_N (n + 32) else c.

Fixpoint toLowerCase (s : string) : string :=
  match s with
  | EmptyString => EmptyString
  | String c r => String (lowerUnit c) (toLowerCase r)
  end.

(** WhiteSpace and LineTerminator code units below 256: TAB, LF, VT, FF, CR,
    SPACE and NO-BREAK SPACE. *)
Definition isWhiteSpace (c : ascii) : bool :=
  let n := unit_code c in
  ((9 <=? n) && (n <=? 13))%N || (n =? 32)%N || (n =? 160)%N.

Fixpoint trimStart (s : string) : string :=
  match s with
  | EmptyString => EmptyString
  | String c r => if isWhiteSpace c then trimStart r else s
  end.

Fixpoint trimEnd (s : string) : string :=
  match s with
  | EmptyString => EmptyString
  | String c r =>
      match trimEnd r with
      | EmptyString => if isWhiteSpace c then EmptyString else String c EmptyString
      | r' => String c r'
      end
  end.

Definition trim (s : string) : string := trimEnd (trimStart s).

(** [s.includes(sub)]: [sub] occurs in [s] at some position. *)
Fixpoint includes (s sub : string) : bool :=
  String.prefix sub s ||
  match s with
  | EmptyString => false
  | String _ r => includes r sub
  end.

(** [a === b] on strings. *)
Definition strictEq (a b : string) : bool := String.eqb a b.

(** The relative index resolution shared by [Array.prototype.slice] and
    [String.prototype.slice]: a negative index counts from the end, and the
    result is clamped to [0, len]. *)
Definition relIndex (len : nat) (i : Z) : nat :=
  if i <? 0 then Z.to_nat (Z.max (Z.of_nat len + i) 0)
  else Z.to_nat (Z.min i (Z.of_nat len)).

(** [s.slice(start, end)] on a string. *)
Definition sliceStr (s : string) (start stop : Z) : string :=
  let from := relIndex (String.length s) start in
  let to := relIndex (String.length s) stop in
  String.substring from (to - from)%nat s.

(** [a.slice(start, end)] on an array. *)
Definition slice {A} (a : list A) (start stop : Z) : list A :=
  let from := relIndex (length a) start in
  let to := relIndex (length a) stop in
  take (to - from)%nat (drop from a).

(** [a.join(sep)] on an array of strings. *)
Definition join (sep : string) (a : list string) : string := String.concat sep a.

(** The line feed and the double quote, which a literal cannot hold. *)
Definition LF : string := String "010"%char EmptyString.
Definition DQUOTE : string := String "034"%char EmptyString.

(** Decimal rendering of an array length inside a template literal. *)
Fixpoint digits (fuel : nat) (n : N) (acc : string) : string :=
  match fuel with
  | O => acc
  | S fuel' =>
      let acc' := String (ascii_of_N (48 + n mod 10)) acc in
      if (n / 10 =? 0)%N then acc' else digits fuel' (n / 10)%N acc'
  end.

Definition numberToString (n : nat) : string :=
  digits (S n) (N.of_nat n) EmptyString.

(** [a.sort(cmp)]: the sort is stable and, for a comparator that is a
    consistent order, leaves the array ordered by it; [cmp x y <= 0] keeps [x]
    before [y].  Each element is placed in front of the already ordered
    elements that followed it, before the first one it does not exceed. *)
Fixpoint sortInsert {A} (cmp : A -> A -> Z) (x : A) (a : list A) : list A :=
  match a with
  | [] => [x]
  | y :: r => if cmp x y <=? 0 then x :: a else y :: sortInsert cmp x r
  end.

Definition sort {A} (cmp : A -> A -> Z) (a : list A) : list A :=
  foldr (sortInsert cmp) [] a.

(** [s.split(sep)] for a separator of one unit: the pieces between the
    occurrences of the separator; the empty string splits into one empty
    piece. *)
Fixpoint split (sep : ascii) (s : string) : list string :=
  match s with
  | EmptyString => [EmptyString]
  | String c r =>
      if Ascii.eqb c sep then EmptyString :: split sep r
      else match split sep r with
           | piece :: pieces => String c piece :: pieces
           | [] => [String c EmptyString]
           end
  end.

(** [a.indexOf(x)] on an array of strings: the first index that holds [x],
    or -1. *)
Fixpoint indexOfFrom (a : list string) (x : string) (i : Z) : Z :=
  match a with
  | [] => -1
  | y :: r => if strictEq y x then i else indexOfFrom r x (i + 1)
  end.

Definition indexOf (a : list string) (x : string) : Z := indexOfFrom a x 0.

(** [a.slice(start)]: the end defaults to the length. *)
Definition sliceFrom {A} (a : list A) (start : Z) : list A :=
  slice a start (Z.of_nat (length a)).

(** A [Map], or the string-keyed properties of a plain object, with the
    order of insertion that iteration follows: [set] on a key that is there
    replaces the value where it stands, on a new key it adds the entry at
    the end. *)
Fixpoint mapGet {K V} `{EqDecision K} (k : K) (m : list (K * V)) : option V :=
  match m with
  | [] => None
  | (k', v) :: r => if decide (k' = k) then Some v else mapGet k r
  end.

Fixpoint mapSet {K V} `{EqDecision K} (k : K) (v : V) (m : list (K * V))
  : list (K * V) :=
  match m with
  | [] => [(k, v)]
  | (k', v') :: r =>
      if decide (k' = k) then (k, v) :: r else (k', v') :: mapSet k v r
  end.

(** [String.prototype.toUpperCase] on one unit below 256.  The small
    letters a-z and U+00E0..U+00FE except the division sign U+00F7 move down
    by 32; the sharp s U+00DF becomes SS; the micro sign U+00B5 and the y
    with diaeresis U+00FF have capitals above U+00FF, outside the range this
    model covers, for which it answers [None]; every other unit is kept. *)
Definition upperUnit (c : ascii) : option string :=
  let n := unit_code c in
  if ((97 <=? n) && (n <=? 122))%N
     || ((224 <=? n) && (n <=? 246))%N
     || ((248 <=? n) && (n <=? 254))%N
  then Some (String (ascii_of_N (n - 32)) EmptyString)
  else if (n =? 223)%N then Some "SS"
  else if ((n =? 181) || (n =? 255))%N then None
  else Some (String c EmptyString).

Fixpoint toUpperCase (s : string) : option string :=
  match s with
  | EmptyString => Some EmptyString
  | String c r =>
      match upperUnit c, toUpperCase r with
      | Some u, Some r' => Some (u +:+ r')
      | _, _ => None
      end
  end.

(** [s.charAt(0)]: the first unit as a string, the empty string when there
    is none. *)
Definition charAt0 (s : string) : string :=
  match s with
  | EmptyString => EmptyString
  | String c _ => String c EmptyString
  end.

(** [s.slice(start)]: the end defaults to the length. *)
Definition sliceStrFrom (s : string) (start : Z) : string :=
  sliceStr s start (Z.of_nat (String.length s)).

End Js.

(** ** Shared types (src/shared/categories.ts, src/shared/types.ts) *)

Inductive RuleCategory : Type :=
  | ModuleStructure
  | ModuleBoundaries
  | ModuleCommunication
  | DataIsolation
  | DependencyManagement
  | RoutesAndControllers
  | SharedKernel
  | TestingStrategy
  | ExternalIntegrations
  | Migration.

(** [CATEGORIES], in declaration order. *)
Definition CATEGORIES : list RuleCategory :=
  [ModuleStructure; ModuleBoundaries; ModuleCommunication; DataIsolation;
   DependencyManagement; RoutesAndControllers; SharedKernel; TestingStrategy;
   ExternalIntegrations; Migration].

(** The string a category is at run time. *)
Definition categoryString (c : RuleCategory) : string :=
  match c with
  | ModuleStructure => "module-structure"
  | ModuleBoundaries => "module-boundaries"
  | ModuleCommunication => "module-communication"
  | DataIsolation => "data-isolation"
  | DependencyManagement => "dependency-management"
  | RoutesAndControllers => "routes-and-controllers"
  | SharedKernel => "shared-kernel"
  | TestingStrategy => "testing-strategy"
  | ExternalIntegrations => "external-integrations"
  | Migration => "migration"
  end.

Definition CATEGORY_LABELS (c : RuleCategory) : string :=
  match c with
  | ModuleStructure => "Module Structure"
  | ModuleBoundaries => "Module Boundaries"
  | ModuleCommunication => "Module Communication"
  | DataIsolation => "Data Isolation"
  | DependencyManagement => "Dependency Management"
  | RoutesAndControllers => "Routes & Controllers"
  | SharedKernel => "Shared Kernel"
  | TestingStrategy => "Testing Strategy"
  | ExternalIntegrations => "External Integrations"
  | Migration => "Migration & Evolution"
  end.

#[global] Instance RuleCategory_eq_dec : EqDecision RuleCategory.
Proof. solve_decision. Defined.

Definition categoryIndex (c : RuleCategory) : nat :=
  match c with
  | ModuleStructure => 0 | ModuleBoundaries => 1 | ModuleCommunication => 2
  | DataIsolation => 3 | DependencyManagement => 4 | RoutesAndControllers => 5
  | SharedKernel => 6 | TestingStrategy => 7 | ExternalIntegrations => 8
  | Migration => 9
  end%nat.

#[global] Instance RuleCategory_countable : Countable RuleCategory.
Proof.
  refine (inj_countable' categoryIndex
            (fun n => nth n CATEGORIES ModuleStructure) _).
  intros []; reflexivity.
Defined.

Inductive ExampleLabel : Type := Good | Bad.

Definition labelString (l : ExampleLabel) : string :=
  match l with Good => "Good" | Bad => "Bad" end.

Record CodeExample : Type := {
  label : ExampleLabel;
  language : string;
  code : string;
}.

Inductive Relationship : Type := Reinforces | Implements | Extends | Complements.

Definition relationshipString (r : Relationship) : string :=
  match r with
  | Reinforces => "reinforces"
  | Implements => "implements"
  | Extends => "extends"
  | Complements => "complements"
  end.

Record CleanCodeReference : Type := {
  principleId : string;
  relationship : Relationship;
  note : string;
}.

(** ** Catalog records (rule-catalog/rules.ts, rule-catalog/anti-patterns.ts) *)

Record ArchitectureRule : Type := {
  id : string;
  name : string;
  category : RuleCategory;
  description : string;
  rationale : string;
  examples : list CodeExample;
  tags : list string;
  cleanCodeRefs : list CleanCodeReference;
  source : option string;
}.

Module AP.
Record AntiPattern : Type := {
  id : string;
  name : string;
  category : RuleCategory;
  description : string;
  examples : list CodeExample;
  tags : list string;
  cleanCodeRefs : list CleanCodeReference;
}.
End AP.
Abbreviation AntiPattern := AP.AntiPattern.

(** An [ArchitectureRule] used where an [AntiPattern] is expected: TypeScript
    types are structural, the callee reads the seven fields it knows. *)
Definition asAntiPattern (r : ArchitectureRule) : AntiPattern :=
  {| AP.id := id r; AP.name := name r; AP.category := category r;
     AP.description := description r; AP.examples := examples r;
     AP.tags := tags r; AP.cleanCodeRefs := cleanCodeRefs r |}.

(** The [id] fields of [RULES], in declaration order (rules.ts). *)
Definition RULES_ids : list string :=
  [ "domain-centric-modules"; "vertical-slice-per-module";
    "standard-module-layout"; "self-contained-initialization";
    "define-public-api"; "hide-implementation-details"; "dto-at-boundaries";
    "stable-contracts"; "no-direct-module-imports";
    "sync-via-service-interface"; "async-via-events"; "anti-corruption-layer";
    "separate-module-data"; "no-cross-module-joins";
    "logical-schema-separation"; "data-ownership-principle";
    "acyclic-dependency-graph"; "depend-on-abstractions";
    "dependency-direction"; "thin-routes"; "one-route-one-module";
    "request-validation-at-edge"; "minimal-shared-code";
    "prefer-duplication-over-coupling"; "shared-types-only";
    "test-module-in-isolation"; "contract-tests-at-boundaries";
    "mock-other-modules"; "isolated-integration-module";
    "dedicated-client-wrapper"; "integration-change-isolation";
    "strangler-fig-pattern"; "extract-module-gradually";
    "start-monolith-first"; "measure-before-splitting" ].

(** The [id] fields of [ANTI_PATTERNS], in declaration order
    (anti-patterns.ts). *)
Definition ANTI_PATTERNS_ids : list string :=
  [ "shared-database-anti-pattern"; "god-module"; "circular-dependency";
    "business-logic-in-routes"; "leaky-abstraction";
    "cross-module-direct-import"; "cross-module-db-access";
    "distributed-monolith"; "anemic-module"; "feature-envy-module";
    "premature-extraction"; "shared-everything-kernel"; "event-soup";
    "tight-temporal-coupling"; "hidden-dependency";
    "inconsistent-boundaries" ].

(** ** Scoring (rule-search/scoring.ts) *)

Module SCORE_WEIGHTS.
Definition EXACT_ID_MATCH : Z := 100.
Definition NAME_CONTAINS : Z := 80.
Definition TAG_EXACT : Z := 70.
Definition TAG_PARTIAL : Z := 50.
Definition DESCRIPTION_CONTAINS : Z := 30.
Definition CATEGORY_MATCH : Z := 20.
End SCORE_WEIGHTS.

Definition CATEGORY_BOOST_MULTIPLIER : Z := 15.

(** The body of the loop over [rule.tags]: the running score after one tag. *)
Definition tagStep (normalizedQuery : string) (score : Z) (tag : string) : Z :=
  if Js.strictEq tag normalizedQuery then score + SCORE_WEIGHTS.TAG_EXACT
  else if Js.includes tag normalizedQuery || Js.includes normalizedQuery tag
       then score + SCORE_WEIGHTS.TAG_PARTIAL
       else score.

Definition scoreRuleByQuery (rule : ArchitectureRule) (query : string) : Z :=
  let normalizedQuery := Js.trim (Js.toLowerCase query) in
  let score := 0 in
  if Js.strictEq (id rule) normalizedQuery then SCORE_WEIGHTS.EXACT_ID_MATCH
  else
    let score :=
      if Js.includes (Js.toLowerCase (name rule)) normalizedQuery
      then score + SCORE_WEIGHTS.NAME_CONTAINS else score in
    let score := fold_left (tagStep normalizedQuery) (tags rule) score in
    let score :=
      if Js.includes (Js.toLowerCase (description rule)) normalizedQuery
      then score + SCORE_WEIGHTS.DESCRIPTION_CONTAINS else score in
    let score :=
      if Js.includes (categoryString (category rule)) normalizedQuery
      then score + SCORE_WEIGHTS.CATEGORY_MATCH else score in
    score.

(** [categoryBoosts.get(rule.category) ?? 0] reads the map and falls back on 0
    for a category it does not hold. *)
Definition scoreRuleByTokens (rule : ArchitectureRule) (tokens : list string)
    (categoryBoosts : gmap RuleCategory Z) : Z :=
  let score :=
    fold_left (fun score token => score + scoreRuleByQuery rule token) tokens 0 in
  let boost := default 0 (categoryBoosts !! category rule) in
  score + boost * CATEGORY_BOOST_MULTIPLIER.

(** The objects [{ rule, score }] built by [rankRules]. *)
Record Scored (T : Type) : Type := { rule : T; score : Z }.
Arguments rule {T} _.
Arguments score {T} _.

(** The value [rankRules] computes: map, filter, sort, map. *)
Definition rankRules {T} (rules : list T) (scoreFn : T -> Z) : list T :=
  map rule
    (Js.sort (fun a b => score b - score a)
       (filter (fun s => 0 < score s)
          (map (fun r => {| rule := r; score := scoreFn r |}) rules))).

(** *** Arrays as objects

    [map] and [filter] return a fresh array and [sort] orders the array it is
    called on.  The store maps a reference to the array it holds; [rankRules]
    is the chain of the four calls on references. *)

Module Store.
Section Store.
Context {T : Type}.

Inductive array : Type :=
  | RuleArray (xs : list T)
  | ScoredArray (xs : list (Scored T)).

Definition ref : Type := positive.

(** A computation on the store: it fails on a reference that holds no array
    of the expected kind. *)
Definition M (A : Type) : Type := gmap ref array -> option (A * gmap ref array).

Definition ret {A} (x : A) : M A := fun st => Some (x, st).

Definition bind {A B} (m : M A) (k : A -> M B) : M B :=
  fun st => match m st with
            | Some (x, st') => k x st'
            | None => None
            end.

Definition alloc (a : array) : M ref :=
  fun st => let r := fresh (dom st) in Some (r, <[r := a]> st).

Definition readRules (r : ref) : M (list T) :=
  fun st => match st !! r with
            | Some (RuleArray xs) => Some (xs, st)
            | _ => None
            end.

Definition readScored (r : ref) : M (list (Scored T)) :=
  fun st => match st !! r with
            | Some (ScoredArray xs) => Some (xs, st)
            | _ => None
            end.

Definition write (r : ref) (a : array) : M unit :=
  fun st => Some (tt, <[r := a]> st).

Local Notation "x <- m ;; k" := (bind m (fun x => k))
  (at level 100, m at next level, right associativity).

(** [rules.map((rule) => ({ rule, score: scoreFn(rule) }))] *)
Definition mapToScored (scoreFn : T -> Z) (r : ref) : M ref :=
  xs <- readRules r ;;
  alloc (ScoredArray (map (fun x => {| rule := x; score := scoreFn x |}) xs)).

(** [.filter(({ score }) => score > 0)] *)
Definition filterPositive (r : ref) : M ref :=
  xs <- readScored r ;;
  alloc (ScoredArray (filter (fun s => 0 < score s) xs)).

(** [.sort((a, b) => b.score - a.score)]: in place, returns its receiver. *)
Definition sortByScore (r : ref) : M ref :=
  xs <- readScored r ;;
  _ <- write r (ScoredArray (Js.sort (fun a b => score b - score a) xs)) ;;
  ret r.

(** [.map(({ rule }) => rule)] *)
Definition mapToRule (r : ref) : M ref :=
  xs <- readScored r ;;
  alloc (RuleArray (map rule xs)).

Definition rankRules (rules : ref) (scoreFn : T -> Z) : M ref :=
  scored <- mapToScored scoreFn rules ;;
  kept <- filterPositive scored ;;
  sorted <- sortByScore kept ;;
  mapToRule sorted.

End Store.
Arguments array : clear implicits.
Arguments M : clear implicits.
End Store.

(** ** Anti-patterns as rules (rule-search/format-results.ts) *)

(** [{ ...ap, rationale: ap.description }]: the seven fields of the
    anti-pattern are copied and [rationale] is added; no [source] exists. *)
Definition antiPatternsAsRules (antiPatterns : list AntiPattern)
  : list ArchitectureRule :=
  map (fun ap =>
         {| id := AP.id ap; name := AP.name ap; category := AP.category ap;
            description := AP.description ap;
            rationale := AP.description ap;
            examples := AP.examples ap; tags := AP.tags ap;
            cleanCodeRefs := AP.cleanCodeRefs ap; source := None |})
      antiPatterns.

(** ** Markdown rendering (rule-catalog/rule-formatter.ts) *)

(** Two characters of the templates lie outside the modelled range: the em
    dash U+2014 and the warning sign U+26A0.  They only ever occur inside
    text that is concatenated, never inspected, and stand here as the bytes
    of their UTF-8 form. *)
Definition EM_DASH : string :=
  String "226"%char (String "128"%char (String "148"%char EmptyString)).
Definition WARNING_SIGN : string :=
  String "226"%char (String "154"%char (String "160"%char EmptyString)).

Definition formatExample (example : CodeExample) : list string :=
  [ "";
    "**" +:+ labelString (label example) +:+ ":**";
    "";
    "```" +:+ language example;
    code example;
    "```" ].

Definition formatCleanCodeRef (ref : CleanCodeReference) : list string :=
  [ "- **" +:+ relationshipString (relationship ref) +:+ "** `"
      +:+ principleId ref +:+ "` " +:+ EM_DASH +:+ " " +:+ note ref;
    "  _Use: search-principle " +:+ Js.DQUOTE +:+ principleId ref
      +:+ Js.DQUOTE +:+ " in clean-code-mcp_" ].

(** [if (rule.source)]: an absent or empty source is falsy. *)
Definition truthy (s : option string) : bool :=
  match s with
  | Some (String _ _) => true
  | _ => false
  end.

Definition formatRuleAsMarkdown (rule : ArchitectureRule) : string :=
  let lines :=
    [ "## " +:+ name rule;
      "";
      "**Category:** " +:+ CATEGORY_LABELS (category rule);
      "**ID:** `" +:+ id rule +:+ "`";
      "";
      description rule;
      "";
      "**Rationale:** " +:+ rationale rule ] in
  let lines :=
    if (0 <? length (examples rule))%nat
    then lines ++ [""; "### Examples"] ++ flat_map formatExample (examples rule)
    else lines in
  let lines :=
    if (0 <? length (cleanCodeRefs rule))%nat
    then lines ++ [""; "### Related Clean Code Principles"]
               ++ flat_map formatCleanCodeRef (cleanCodeRefs rule)
    else lines in
  let lines := lines ++ [""; "**Tags:** " +:+ Js.join ", " (tags rule)] in
  let lines :=
    if truthy (source rule)
    then lines ++ ["**Source:** " +:+ default "" (source rule)]
    else lines in
  Js.join Js.LF lines.

Definition formatAntiPatternAsMarkdown (ap : AntiPattern) : string :=
  let lines :=
    [ "## " +:+ WARNING_SIGN +:+ " Anti-Pattern: " +:+ AP.name ap;
      "";
      "**Category:** " +:+ CATEGORY_LABELS (AP.category ap);
      "**ID:** `" +:+ AP.id ap +:+ "`";
      "";
      AP.description ap ] in
  let lines :=
    if (0 <? length (AP.examples ap))%nat
    then lines ++ [""; "### Examples"] ++ flat_map formatExample (AP.examples ap)
    else lines in
  let lines :=
    if (0 <? length (AP.cleanCodeRefs ap))%nat
    then lines ++ [""; "### Related Clean Code Principles"]
               ++ flat_map formatCleanCodeRef (AP.cleanCodeRefs ap)
    else lines in
  let lines := lines ++ [""; "**Tags:** " +:+ Js.join ", " (AP.tags ap)] in
  Js.join Js.LF lines.

(** [maxLength] defaults to 100 when the argument is left out. *)
Definition truncateDescription (description : string) (maxLength : option Z)
  : string :=
  let maxLength := default 100 maxLength in
  if Z.of_nat (String.length description) <=? maxLength then description
  else Js.trimEnd (Js.sliceStr description 0 maxLength) +:+ "...".

(** [formatRuleList] reads [name], [id] and [description], which rules and
    anti-patterns share; it is given rules here. *)
Definition formatRuleList (rules : list ArchitectureRule) : string :=
  if (length rules =? 0)%nat then "No rules found."
  else
    let lines := ["Found **" +:+ Js.numberToString (length rules) +:+ "** rule(s):"; ""] in
    let lines :=
      fold_left
        (fun lines rule =>
           lines ++ ["- **" +:+ name rule +:+ "** (`" +:+ id rule +:+ "`) "
                       +:+ EM_DASH +:+ " "
                       +:+ truncateDescription (description rule) None])
        rules lines in
    Js.join Js.LF lines.

(** ** Result formatting (rule-search/format-results.ts) *)

Definition MAX_DETAILED_RESULTS : Z := 3.
Definition MAX_TOTAL_RESULTS : Z := 10.

Inductive ResultType : Type := TypeRule | TypeAntiPattern.

Record TaggedResult : Type := { type : ResultType; item : ArchitectureRule }.

Record Options : Type := {
  emptyMessage : string;
  remainingHeader : string;
  maxTotal : option Z;
}.

(** The returned object [{ content: [{ type: text, text }] }]: every content
    item has type text, so an item is its text. *)
Record ToolResult : Type := { content : list string }.

Definition formatSearchResults (rankedRules rankedAntiPatterns : list ArchitectureRule)
    (options : Options) : ToolResult :=
  let maxTotal := default MAX_TOTAL_RESULTS (maxTotal options) in
  let allResults :=
    Js.slice
      (map (fun r => {| type := TypeRule; item := r |}) rankedRules
       ++ map (fun ap => {| type := TypeAntiPattern; item := ap |}) rankedAntiPatterns)
      0 maxTotal in
  if (length allResults =? 0)%nat then {| content := [emptyMessage options] |}
  else
    let detailed := Js.slice allResults 0 MAX_DETAILED_RESULTS in
    let remaining := Js.slice allResults MAX_DETAILED_RESULTS maxTotal in
    let parts :=
      map (fun t =>
             match type t with
             | TypeRule => formatRuleAsMarkdown (item t)
             | TypeAntiPattern => formatAntiPatternAsMarkdown (asAntiPattern (item t))
             end)
          detailed in
    let parts :=
      if (0 <? length remaining)%nat
      then parts ++ [Js.LF +:+ "---" +:+ Js.LF +:+ "### " +:+ remainingHeader options
                       +:+ Js.LF +:+ formatRuleList (map item remaining)]
      else parts in
    {| content := [Js.join (Js.LF +:+ Js.LF +:+ "---" +:+ Js.LF +:+ Js.LF) parts] |}.

(** ** Tokenizer (rule-search/tokenizer.ts) *)

Definition STOP_WORDS : gset string :=
  list_to_set
    [ "a"; "an"; "the"; "is"; "it"; "to"; "in"; "of"; "and"; "or"; "for";
      "on"; "at"; "by"; "be"; "as"; "do"; "if"; "my"; "no"; "not"; "but";
      "was"; "are"; "has"; "had"; "can"; "how"; "what"; "when"; "this";
      "that"; "with"; "from"; "have"; "will"; "been"; "they"; "them"; "then";
      "than"; "some"; "should"; "would"; "could"; "about"; "which"; "there";
      "where"; "their"; "other"; "into"; "very"; "just"; "also"; "more";
      "like"; "want"; "need"; "i"; "me"; "we"; "you" ].

(** The own properties of [CATEGORY_KEYWORDS].  (The object also inherits
    from Object.prototype; the one inherited name a token can spell,
    constructor, yields a value that is no category, so the key it adds to
    the boost map is never read by [categoryBoosts.get(rule.category)].) *)
Definition CATEGORY_KEYWORDS : gmap string RuleCategory :=
  list_to_map
    [ ("module", ModuleStructure); ("modules", ModuleStructure);
      ("structure", ModuleStructure); ("layout", ModuleStructure);
      ("organize", ModuleStructure); ("organization", ModuleStructure);
      ("directory", ModuleStructure); ("folder", ModuleStructure);

      ("boundary", ModuleBoundaries); ("boundaries", ModuleBoundaries);
      ("api", ModuleBoundaries); ("facade", ModuleBoundaries);
      ("encapsulation", ModuleBoundaries); ("contract", ModuleBoundaries);
      ("public", ModuleBoundaries); ("barrel", ModuleBoundaries);

      ("communication", ModuleCommunication); ("event", ModuleCommunication);
      ("events", ModuleCommunication); ("messaging", ModuleCommunication);
      ("sync", ModuleCommunication); ("async", ModuleCommunication);
      ("event-bus", ModuleCommunication);

      ("data", DataIsolation); ("database", DataIsolation);
      ("schema", DataIsolation); ("isolation", DataIsolation);
      ("ownership", DataIsolation); ("table", DataIsolation);
      ("tables", DataIsolation); ("join", DataIsolation);
      ("prisma", DataIsolation);

      ("dependency", DependencyManagement);
      ("dependencies", DependencyManagement);
      ("coupling", DependencyManagement); ("acyclic", DependencyManagement);
      ("circular", DependencyManagement); ("cycle", DependencyManagement);
      ("dag", DependencyManagement);

      ("route", RoutesAndControllers); ("routes", RoutesAndControllers);
      ("controller", RoutesAndControllers); ("handler", RoutesAndControllers);
      ("thin", RoutesAndControllers); ("endpoint", RoutesAndControllers);

      ("shared", SharedKernel); ("kernel", SharedKernel);
      ("common", SharedKernel); ("duplication", SharedKernel);

      ("test", TestingStrategy); ("testing", TestingStrategy);
      ("tests", TestingStrategy); ("mock", TestingStrategy);
      ("contract-test", TestingStrategy);

      ("external", ExternalIntegrations); ("client", ExternalIntegrations);
      ("wrapper", ExternalIntegrations); ("integration", ExternalIntegrations);
      ("provider", ExternalIntegrations);

      ("migration", Migration); ("strangler", Migration);
      ("extract", Migration); ("legacy", Migration); ("monolith", Migration);
      ("microservice", Migration); ("split", Migration) ].

(** The character class [a-z0-9\-]. *)
Definition isTokenUnit (c : ascii) : bool :=
  let n := Js.unit_code c in
  ((97 <=? n) && (n <=? 122))%N || ((48 <=? n) && (n <=? 57))%N || (n =? 45)%N.

(** [.replace(/[^a-z0-9\-]+/g, " ")]: every maximal run of units outside the
    class becomes one space; [inRun] tells that the run has begun. *)
Fixpoint replaceRuns (inRun : bool) (s : string) : string :=
  match s with
  | EmptyString => EmptyString
  | String c r =>
      if isTokenUnit c then String c (replaceRuns false r)
      else if inRun then replaceRuns true r
      else String " "%char (replaceRuns true r)
  end.

(** [.split(/\s+/)]: the pieces between maximal runs of white space; a run at
    either end leaves an empty piece there, and the empty string splits into
    one empty piece.  [cur] is the piece being read, [inSep] tells that a run
    of white space has begun. *)
Fixpoint splitGo (cur : string) (inSep : bool) (s : string) : list string :=
  match s with
  | EmptyString => [cur]
  | String c r =>
      if Js.isWhiteSpace c
      then if inSep then splitGo "" true r else cur :: splitGo "" true r
      else splitGo (cur +:+ String c EmptyString) false r
  end.

Definition splitWhiteSpace (s : string) : list string := splitGo "" false s.

Definition tokenize (text : string) : list string :=
  List.filter (fun token => (1 <? String.length token)%nat)
    (splitWhiteSpace (replaceRuns false (Js.toLowerCase text))).

Definition removeStopWords (tokens : list string) : list string :=
  List.filter (fun token => negb (bool_decide (token ∈ STOP_WORDS))) tokens.

Definition detectCategoryBoosts (tokens : list string) : gmap RuleCategory Z :=
  fold_left
    (fun (boosts : gmap RuleCategory Z) token =>
       match CATEGORY_KEYWORDS !! token with
       | Some category =>
           let current := default 0 (boosts !! category) in
           <[category := current + 1]> boosts
       | None => boosts
       end)
    tokens ∅.

(** ** The two search tools (rule-search/search-rule.tool.ts and
       rule-search/search-by-context.tool.ts)

    The handlers read the two static tables; they are taken as parameters
    here, so that what is proved of a handler holds for the shipped tables
    and for any other. *)

Definition MAX_CONTEXT_RESULTS : Z := 8.

Section Tools.
Variable RULES : list ArchitectureRule.
Variable ANTI_PATTERNS : list AntiPattern.

Definition searchRule (query : string) : ToolResult :=
  let rankedRules :=
    rankRules RULES (fun rule => scoreRuleByQuery rule query) in
  let rankedAntiPatterns :=
    rankRules (antiPatternsAsRules ANTI_PATTERNS)
      (fun ap => scoreRuleByQuery ap query) in
  formatSearchResults rankedRules rankedAntiPatterns
    {| emptyMessage :=
         "No rules or anti-patterns found for " +:+ Js.DQUOTE +:+ query
           +:+ Js.DQUOTE +:+ ".";
       remainingHeader := "Other matches";
       maxTotal := Some MAX_TOTAL_RESULTS |}.

Definition searchByContext (context : string) : ToolResult :=
  let tokens := removeStopWords (tokenize context) in
  let categoryBoosts := detectCategoryBoosts tokens in
  let rankedRules :=
    rankRules RULES (fun rule => scoreRuleByTokens rule tokens categoryBoosts) in
  let rankedAntiPatterns :=
    rankRules (antiPatternsAsRules ANTI_PATTERNS)
      (fun ap => scoreRuleByTokens ap tokens categoryBoosts) in
  formatSearchResults rankedRules rankedAntiPatterns
    {| emptyMessage := "No rules found matching that context.";
       remainingHeader := "Also relevant";
       maxTotal := Some MAX_CONTEXT_RESULTS |}.
End Tools.

(** ** Catalog access (rule-catalog/rules.ts, rule-catalog/anti-patterns.ts,
       shared/categories.ts) *)

(** [CATEGORIES.includes(value)] *)
Definition isValidCategory (value : string) : bool :=
  existsb (fun c => Js.strictEq (categoryString c) value) CATEGORIES.

Section Catalog.
Variable RULES : list ArchitectureRule.
Variable ANTI_PATTERNS : list AntiPattern.

Definition findRuleById (ruleId : string) : option ArchitectureRule :=
  List.find (fun rule => Js.strictEq (id rule) ruleId) RULES.

(** The parameter is a string; a rule is kept when its category is that
    string. *)
Definition filterByCategory (categoryName : string) : list ArchitectureRule :=
  List.filter (fun rule => Js.strictEq (categoryString (category rule)) categoryName)
    RULES.

Definition findAntiPatternById (apId : string) : option AntiPattern :=
  List.find (fun ap => Js.strictEq (AP.id ap) apId) ANTI_PATTERNS.

Definition filterAntiPatternsByCategory (categoryName : string) : list AntiPattern :=
  List.filter (fun ap => Js.strictEq (categoryString (AP.category ap)) categoryName)
    ANTI_PATTERNS.
End Catalog.

(** ** The grouped catalog (rule-catalog/rule-formatter.ts) *)

(** [list.push(rule)] works on the array the map already holds for the
    category, when it holds one; [grouped.set] then stores the same array
    again.  Either way the group of the category ends with the rule. *)
Definition groupByCategory (rules : list ArchitectureRule)
  : list (RuleCategory * list ArchitectureRule) :=
  fold_left
    (fun grouped rule =>
       let list := default [] (Js.mapGet (category rule) grouped) in
       let list := list ++ [rule] in
       Js.mapSet (category rule) list grouped)
    rules [].


(** ** The list-rules tool (rule-catalog/list-rules.tool.ts) *)


(** ** The grouped catalog resource (rule-catalog/catalog.resource.ts) *)

(** [buildGroupedCatalog]: an object from category label to the id and name
    of the rules of the category.  Its keys are the ten labels, none of
    which is a name Object.prototype defines, so reading a key that was not
    set gives undefined. *)
Definition buildGroupedCatalog (RULES : list ArchitectureRule)
  : list (string * list (string * string)) :=
  fold_left
    (fun grouped rule =>
       let label := CATEGORY_LABELS (category rule) in
       let list := default [] (Js.mapGet label grouped) in
       let list := list ++ [(id rule, name rule)] in
       Js.mapSet label list grouped)
    RULES [].

(** ** Import checks (module-validation/check-imports.tool.ts) *)

Definition isInternalImport (importPath targetModule : string) : bool :=
  let parts := Js.split "/"%char importPath in
  let moduleIdx := Js.indexOf parts targetModule in
  if moduleIdx =? -1 then false
  else
    let afterModule := Js.sliceFrom parts (moduleIdx + 1) in
    if (length afterModule =? 0)%nat then false
    else if (length afterModule =? 1)%nat
            && Js.strictEq (nth 0 afterModule "") "index.js" then false
    else if (length afterModule =? 1)%nat
            && Js.strictEq (nth 0 afterModule "") "index.ts" then false
    else if (length afterModule =? 1)%nat
            && Js.strictEq (nth 0 afterModule "") "index" then false
    else if (length afterModule =? 1)%nat
            && Js.strictEq (nth 0 afterModule "") "" then false
    else true.

(** ** Names of generated code (code-templates/utils.ts,
       code-templates/get-template.tool.ts) *)

(** The function mapped over the pieces of a name:
    [(w) => w.charAt(0).toUpperCase() + w.slice(1)]. *)
Definition capitalizeWord (w : string) : option string :=
  match Js.toUpperCase (Js.charAt0 w) with
  | Some u => Some (u +:+ Js.sliceStrFrom w 1)
  | None => None
  end.

Definition toPascalCase (kebab : string) : option string :=
  match mapM capitalizeWord (Js.split "-"%char kebab) with
  | Some words => Some (Js.join "" words)
  | None => None
  end.

Definition toCamelCase (kebab : string) : option string :=
  let parts := Js.split "-"%char kebab in
  match mapM capitalizeWord (Js.sliceFrom parts 1) with
  | Some words => Some (nth 0 parts "" +:+ Js.join "" words)
  | None => None
  end.

Definition isLowerLetter (c : ascii) : bool :=
  let n := Js.unit_code c in ((97 <=? n) && (n <=? 122))%N.

Definition isUpperLetter (c : ascii) : bool :=
  let n := Js.unit_code c in ((65 <=? n) && (n <=? 90))%N.

Definition isDigit (c : ascii) : bool :=
  let n := Js.unit_code c in ((48 <=? n) && (n <=? 57))%N.

(** [MODULE_NAME_REGEX.test(s)] for [/^[a-z][a-z0-9]*(-[a-z0-9]+)*$/]: after
    the first letter, [matchRest] reads letters and digits, and a hyphen only
    where a letter or digit came before it and one follows; [afterHyphen]
    tells that the unit before was a hyphen. *)
Fixpoint matchRest (afterHyphen : bool) (s : string) : bool :=
  match s with
  | EmptyString => negb afterHyphen
  | String c r =>
      if isLowerLetter c || isDigit c then matchRest false r
      else if Ascii.eqb c "-"%char && negb afterHyphen then matchRest true r
      else false
  end.

Definition MODULE_NAME_REGEX_test (s : string) : bool :=
  match s with
  | EmptyString => false
  | String c r => isLowerLetter c && matchRest false r
  end.

(** ** Decision trees (rule-catalog/decision-trees.ts) *)

Module DN.
Record DecisionNode : Type := {
  id : string;
  question : string;
  yes : string;
  no : string;
}.
End DN.
Abbreviation DecisionNode := DN.DecisionNode.

Module DT.
Record DecisionTree : Type := {
  id : string;
  name : string;
  description : string;
  nodes : list DecisionNode;
}.
End DT.
Abbreviation DecisionTree := DT.DecisionTree.

Definition DECISION_TREES : list DecisionTree :=
  [ {| DT.id := "create-vs-expand-module";
       DT.name := "Create New Module vs Expand Existing";
       DT.description :=
         "Helps decide whether new functionality should become a new module or be added to an existing one.";
       DT.nodes :=
      [
        {| DN.id := "start";
           DN.question := "Does the new functionality belong to a different business domain than any existing module?";
           DN.yes := "different-lifecycle";
           DN.no := "existing-cohesion" |};
        {| DN.id := "different-lifecycle";
           DN.question := "Does it have a different change frequency or deployment lifecycle?";
           DN.yes := "ANSWER: Create a new module. Different domain + different lifecycle = clear boundary.";
           DN.no := "different-team" |};
        {| DN.id := "different-team";
           DN.question := "Will it be owned by a different team or developer?";
           DN.yes := "ANSWER: Create a new module. Different ownership justifies separation.";
           DN.no := "data-ownership" |};
        {| DN.id := "data-ownership";
           DN.question := "Does it own its own data (new tables/collections)?";
           DN.yes := "ANSWER: Create a new module. Data ownership is a strong boundary signal.";
           DN.no := "ANSWER: Consider creating a new module, but it could also be a sub-feature of a related module. Start within the existing module and extract later if it grows." |};
        {| DN.id := "existing-cohesion";
           DN.question := "Is the existing module already large (>10 files or >1000 lines of business logic)?";
           DN.yes := "change-together";
           DN.no := "ANSWER: Expand the existing module. It's small enough and the functionality is cohesive." |};
        {| DN.id := "change-together";
           DN.question := "Does the new functionality change together with the existing code (same PRs, same features)?";
           DN.yes := "ANSWER: Expand the existing module. High change coupling means it belongs together.";
           DN.no := "ANSWER: Create a new module. The existing module is large and this functionality has different change reasons." |} ] |};
    {| DT.id := "sync-vs-async-communication";
       DT.name := "Sync vs Async Communication";
       DT.description :=
         "Helps decide whether communication between modules should be synchronous (service call) or asynchronous (events).";
       DT.nodes :=
      [
        {| DN.id := "start";
           DN.question := "Does the caller need an immediate response to continue its operation?";
           DN.yes := "read-or-write";
           DN.no := "failure-tolerance" |};
        {| DN.id := "read-or-write";
           DN.question := "Is this a read/query operation (getting data)?";
           DN.yes := "ANSWER: Use synchronous service call. Reads naturally need immediate data. Import and call the module's service directly.";
           DN.no := "transactional" |};
        {| DN.id := "transactional";
           DN.question := "Does this need to be part of the same transaction (all-or-nothing)?";
           DN.yes := "ANSWER: Use synchronous service call. Transactional operations need immediate confirmation. Consider a saga pattern if the transaction spans multiple modules.";
           DN.no := "ANSWER: Consider async events. The write doesn't need immediate confirmation from the other module. Emit an event and let the other module handle it." |};
        {| DN.id := "failure-tolerance";
           DN.question := "Is it acceptable if the other module processes this later or even fails?";
           DN.yes := "multiple-consumers";
           DN.no := "ANSWER: Use synchronous service call. If failure is not acceptable, you need immediate confirmation." |};
        {| DN.id := "multiple-consumers";
           DN.question := "Could multiple modules need to react to this same event?";
           DN.yes := "ANSWER: Use async events. Multiple consumers is the strongest signal for events. Emit once, many modules can listen.";
           DN.no := "ANSWER: Use async events. Fire-and-forget with tolerance for delayed processing is a good fit for events." |} ] |};
    {| DT.id := "when-to-extract-microservice";
       DT.name := "When to Extract to Microservice";
       DT.description :=
         "Helps decide whether a module in a modular monolith should be extracted into an independent microservice.";
       DT.nodes :=
      [
        {| DN.id := "start";
           DN.question := "Does this module need independent scaling (e.g., 10x more traffic than the rest)?";
           DN.yes := "team-ownership";
           DN.no := "independent-deploy" |};
        {| DN.id := "independent-deploy";
           DN.question := "Does this module need independent deployment (different release cycle)?";
           DN.yes := "team-ownership";
           DN.no := "tech-requirements" |};
        {| DN.id := "tech-requirements";
           DN.question := "Does this module require a different technology stack (different language, specialized DB)?";
           DN.yes := "boundary-clean";
           DN.no := "ANSWER: Keep as module in the monolith. There's no compelling reason to extract. The overhead of a separate service isn't justified." |};
        {| DN.id := "team-ownership";
           DN.question := "Is there a dedicated team that will own this service end-to-end?";
           DN.yes := "boundary-clean";
           DN.no := "ANSWER: Keep as module for now. Without a dedicated team, a microservice becomes an orphan. Invest in team structure first." |};
        {| DN.id := "boundary-clean";
           DN.question := "Are the module boundaries already clean (public API, no shared DB, minimal sync calls)?";
           DN.yes := "ANSWER: Extract to microservice. You have clean boundaries, a good reason, and team ownership. The module is ready.";
           DN.no := "ANSWER: Clean up boundaries first, then extract. Extracting a module with leaky boundaries creates a distributed monolith. First: enforce public API, remove shared DB access, minimize coupling. Then extract." |} ] |} ].

Definition findDecisionTreeById (treeId : string) : option DecisionTree :=
  List.find (fun tree => Js.strictEq (DT.id tree) treeId) DECISION_TREES.

(** ** The specification's wording, for comparison with the code *)

Definition sumZ (l : list Z) : Z := foldr Z.add 0 l.

(** Rule 3 for one tag: 70 for a tag equal to the query, otherwise 50 when
    either contains the other. *)
Definition tagContribution (normalizedQuery tag : string) : Z :=
  if Js.strictEq tag normalizedQuery then 70
  else if Js.includes tag normalizedQuery || Js.includes normalizedQuery tag
       then 50 else 0.

(** Rules 2 to 5, added up. *)
Definition additiveRules (E : ArchitectureRule) (normalizedQuery : string) : Z :=
  (if Js.includes (Js.toLowerCase (name E)) normalizedQuery then 80 else 0)
  + sumZ (map (tagContribution normalizedQuery) (tags E))
  + (if Js.includes (Js.toLowerCase (description E)) normalizedQuery then 30 else 0)
  + (if Js.includes (categoryString (category E)) normalizedQuery then 20 else 0).

(** The rule system of the specification: rule 1 compares the id, taken
    case-insensitively and trimmed, with the normalized query. *)
Definition specScore (E : ArchitectureRule) (Q : string) : Z :=
  let normalizedQuery := Js.trim (Js.toLowerCase Q) in
  if Js.strictEq (Js.trim (Js.toLowerCase (id E))) normalizedQuery then 100
  else additiveRules E normalizedQuery.

(** The same rule system with rule 1 comparing the id as it is stored. *)
Definition storedIdScore (E : ArchitectureRule) (Q : string) : Z :=
  let normalizedQuery := Js.trim (Js.toLowerCase Q) in
  if Js.strictEq (id E) normalizedQuery then 100
  else additiveRules E normalizedQuery.

(** Token scoring as the specification words it. *)
Definition specTokenScore (E : ArchitectureRule) (T : list string)
    (B : gmap RuleCategory Z) : Z :=
  sumZ (map (scoreRuleByQuery E) T)
  + match B !! category E with Some b => b * 15 | None => 0 end.

(** Result formatting as the specification words it: rules first, then
    anti-patterns, cut to [maxTotal] items; the first three in detail, the
    rest as a summary under the overflow header. *)
Definition tagAll (rules antiPatterns : list ArchitectureRule) : list TaggedResult :=
  map (fun r => {| type := TypeRule; item := r |}) rules
  ++ map (fun ap => {| type := TypeAntiPattern; item := ap |}) antiPatterns.

Definition renderDetailed (t : TaggedResult) : string :=
  match type t with
  | TypeRule => formatRuleAsMarkdown (item t)
  | TypeAntiPattern => formatAntiPatternAsMarkdown (asAntiPattern (item t))
  end.

Definition renderSummary (header : string) (summary : list TaggedResult) : string :=
  Js.LF +:+ "---" +:+ Js.LF +:+ "### " +:+ header +:+ Js.LF
    +:+ formatRuleList (map item summary).

Definition SEPARATOR : string := Js.LF +:+ Js.LF +:+ "---" +:+ Js.LF +:+ Js.LF.

Definition specFormat (rules antiPatterns : list ArchitectureRule)
    (emptyMessage header : string) (maxTotal : Z) : ToolResult :=
  let truncated := take (Z.to_nat maxTotal) (tagAll rules antiPatterns) in
  match truncated with
  | [] => {| content := [emptyMessage] |}
  | _ =>
      let detailed := take 3 truncated in
      let summary := drop 3 truncated in
      {| content :=
           [Js.join SEPARATOR
              (map renderDetailed detailed
               ++ match summary with
                  | [] => []
                  | _ => [renderSummary header summary]
                  end)] |}
  end.

(** A string none of whose units is white space. *)
Fixpoint noWhiteSpace (s : string) : bool :=
  match s with
  | EmptyString => true
  | String c r => negb (Js.isWhiteSpace c) && noWhiteSpace r
  end.

(** A string all of whose units are white space. *)
Fixpoint allWhiteSpace (s : string) : bool :=
  match s with
  | EmptyString => true
  | String c r => Js.isWhiteSpace c && allWhiteSpace r
  end.

(** A string that does not begin with white space. *)
Definition startsClean (s : string) : Prop :=
  match s with
  | EmptyString => True
  | String c _ => Js.isWhiteSpace c = false
  end.

(** What is asked of a catalog id. *)
Definition wellFormedId (i : string) : Prop :=
  i <> "" /\ Js.toLowerCase i = i /\ noWhiteSpace i = true.

#[global] Instance wellFormedId_dec (i : string) : Decision (wellFormedId i).
Proof. unfold wellFormedId. apply _. Defined.

(** ** Notions the further properties are stated with *)

(** Every unit of the string passes the test. *)
Fixpoint allUnits (P : ascii -> bool) (s : string) : bool :=
  match s with
  | EmptyString => true
  | String c r => P c && allUnits P r
  end.

(** How many of the tokens are keywords of the category. *)
Definition keywordCount (c : RuleCategory) (tokens : list string) : nat :=
  length (filter (fun t => CATEGORY_KEYWORDS !! t = Some c) tokens).

(** The maximal runs of units of the class [a-z0-9\-] in a string, with an
    empty run wherever two units outside the class meet; [cur] is the run
    being read. *)
Fixpoint tokenRuns (cur : string) (s : string) : list string :=
  match s with
  | EmptyString => [cur]
  | String c r =>
      if isTokenUnit c then tokenRuns (cur +:+ String c EmptyString) r
      else cur :: tokenRuns "" r
  end.

(** A token as the tokenizer produces them: two units or more, all of the
    class [a-z0-9\-]. *)
Definition wellFormedToken (t : string) : Prop :=
  (2 <= String.length t)%nat /\ allUnits isTokenUnit t = true.

(** A path segment: a string without a slash. *)
Definition isSegment (s : string) : bool :=
  allUnits (fun c => negb (Ascii.eqb c "/"%char)) s.

(** A piece of a module name: not empty, small letters and digits only. *)
Definition isNamePiece (s : string) : bool :=
  negb (String.eqb s "") && allUnits (fun c => isLowerLetter c || isDigit c) s.

(** The first unit of the string passes the test. *)
Definition firstUnit (P : ascii -> bool) (s : string) : bool :=
  match s with
  | EmptyString => false
  | String c _ => P c
  end.

(** A letter of either case or a digit. *)
Definition isAlnumUnit (c : ascii) : bool :=
  isLowerLetter c || isUpperLetter c || isDigit c.

(** The capital of a small letter, any other unit as it is. *)
Definition capitalOf (c : ascii) : ascii :=
  if isLowerLetter c then ascii_of_N (Js.unit_code c - 32) else c.

(** A word with the capital of its first unit. *)
Definition capitalized (w : string) : string :=
  match w with
  | EmptyString => EmptyString
  | String c r => String (capitalOf c) r
  end.

(** An edge that is a final answer, by the convention of the table. *)
Definition isAnswer (edge : string) : bool := String.prefix "ANSWER:" edge.

(** The edge names a node that stands after position [i] in the list. *)
Definition pointsLater (nodes : list DecisionNode) (i : nat) (edge : string) : bool :=
  existsb (fun m => Js.strictEq (DN.id m) edge) (drop (S i) nodes).

(** Some node of the list has an edge to the node. *)
Definition isTarget (nodes : list DecisionNode) (n : DecisionNode) : bool :=
  existsb (fun m => Js.strictEq (DN.yes m) (DN.id n) || Js.strictEq (DN.no m) (DN.id n))
    nodes.

(** A tree whose first node is start, whose node ids are distinct, whose
    every edge is either an answer or the id of a later node (so that no
    walk can return to a node), and whose every node but the first is the
    target of an edge. *)
Definition wellFormedTree (t : DecisionTree) : Prop :=
  head (map DN.id (DT.nodes t)) = Some "start"
  /\ NoDup (map DN.id (DT.nodes t))
  /\ (forall i n, DT.nodes t !! i = Some n ->
        xorb (isAnswer (DN.yes n)) (pointsLater (DT.nodes t) i (DN.yes n)) = true
        /\ xorb (isAnswer (DN.no n)) (pointsLater (DT.nodes t) i (DN.no n)) = true)
  /\ Forall (fun n => isTarget (DT.nodes t) n = true) (tail (DT.nodes t)).

(** ** Sample entries

    The rule thin-routes of [RULES] and the anti-pattern god-module of
    [ANTI_PATTERNS], with their code examples and clean-code references left
    out; scoring reads neither. *)
Definition thinRoutes : ArchitectureRule :=
  {| id := "thin-routes";
     name := "Thin Routes";
     category := RoutesAndControllers;
     description :=
       "Route handlers should be thin: validate input, call the service, return response. No business logic, no direct database access, no complex transformations in the route.";
     rationale :=
       "Thin routes keep the API layer as a simple adapter. Business logic in services is reusable and testable; business logic in routes is neither.";
     examples := [];
     tags := ["route"; "controller"; "thin"; "handler"; "api"; "validation"];
     cleanCodeRefs := [];
     source := None |}.

Definition godModule : AntiPattern :=
  {| AP.id := "god-module";
     AP.name := "God Module";
     AP.category := ModuleStructure;
     AP.description :=
       "A single module that handles too many responsibilities with no clear boundary. It grows indefinitely because no one knows where else to put new code. Split by business domain.";
     AP.examples := [];
     AP.tags := ["anti-pattern"; "god-module"; "responsibility"; "boundary"; "split"];
     AP.cleanCodeRefs := [] |}.

(** The anti-pattern god-module in the form the search tools rank it. *)
Definition godModuleAsRule : ArchitectureRule :=
  {| id := "god-module";
     name := "God Module";
     category := ModuleStructure;
     description := AP.description godModule;
     rationale := AP.description godModule;
     examples := [];
     tags := AP.tags godModule;
     cleanCodeRefs := [];
     source := None |}.

(** An entry whose id is stored with capitals, which the record type allows. *)
Definition capitalId : ArchitectureRule :=
  {| id := "Thin-Routes";
     name := "Thin Routes";
     category := RoutesAndControllers;
     description := "Route handlers should be thin.";
     rationale := "Thin routes keep the API layer as a simple adapter.";
     examples := [];
     tags := ["route"];
     cleanCodeRefs := [];
     source := None |}.

(** * Properties *)

(** ** Sanity checks of the embedding on concrete inputs *)

Example tokenize_example :
  tokenize "My modules are importing internal files from each other" =
  ["my"; "modules"; "are"; "importing"; "internal"; "files"; "from"; "each"; "other"].
Proof. reflexivity. Qed.

Example removeStopWords_example :
  removeStopWords (tokenize "My modules are importing internal files") =
  ["modules"; "importing"; "internal"; "files"].
Proof. vm_compute. reflexivity. Qed.

Example detectCategoryBoosts_example :
  detectCategoryBoosts ["modules"; "boundary"; "module"] !! ModuleStructure = Some 2.
Proof. vm_compute. reflexivity. Qed.

Example splitWhiteSpace_edges :
  splitWhiteSpace "" = [""] /\ splitWhiteSpace " a  b " = [""; "a"; "b"; ""].
Proof. split; reflexivity. Qed.

Example scoreRuleByQuery_thinRoutes :
  scoreRuleByQuery thinRoutes "  Thin-Routes " = 100
  /\ scoreRuleByQuery thinRoutes "route" = 80 + 70 + 30 + 20
  /\ scoreRuleByQuery thinRoutes "controllers" = 50 + 20
  /\ scoreRuleByQuery thinRoutes "" = 430.
Proof. repeat split; vm_compute; reflexivity. Qed.

Example numberToString_example :
  Js.numberToString 7 = "7" /\ Js.numberToString 120 = "120" /\ Js.numberToString 0 = "0".
Proof. repeat split; reflexivity. Qed.

Example slice_examples :
  Js.slice [1; 2; 3; 4] 0 (-1) = [1; 2; 3]
  /\ Js.slice [1; 2; 3; 4] 3 10 = [4]
  /\ Js.slice [1; 2; 3; 4] 0 2 = [1; 2]
  /\ Js.sliceStr "abcdefghij" 0 5 = "abcde".
Proof. repeat split; reflexivity. Qed.

Example sort_example :
  Js.sort (fun a b => b.1 - a.1) [(1, "a"); (3, "b"); (1, "c"); (3, "d"); (2, "e")]
  = [(3, "b"); (3, "d"); (2, "e"); (1, "a"); (1, "c")].
Proof. reflexivity. Qed.

(** ** Facts about the string operations *)

Section StringFacts.

Lemma append_nil_l (s : string) : "" +:+ s = s.
Proof. reflexivity. Qed.

Lemma append_cons (c : ascii) (s t : string) :
  String c s +:+ t = String c (s +:+ t).
Proof. reflexivity. Qed.

Lemma append_nil_r (s : string) : s +:+ "" = s.
Proof. induction s as [|c s IH]; [done|]. by rewrite append_cons, IH. Qed.

Lemma lowerUnit_idem (c : ascii) : Js.lowerUnit (Js.lowerUnit c) = Js.lowerUnit c.
Proof. by destruct c as [[] [] [] [] [] [] [] []]. Qed.

Lemma lowerUnit_whiteSpace (c : ascii) :
  Js.isWhiteSpace c = true -> Js.lowerUnit c = c.
Proof. by destruct c as [[] [] [] [] [] [] [] []]. Qed.

Lemma toLowerCase_idem (s : string) :
  Js.toLowerCase (Js.toLowerCase s) = Js.toLowerCase s.
Proof.
  induction s as [|c s IH]; simpl; [done|].
  by rewrite lowerUnit_idem, IH.
Qed.

Lemma toLowerCase_append (s t : string) :
  Js.toLowerCase (s +:+ t) = Js.toLowerCase s +:+ Js.toLowerCase t.
Proof.
  induction s as [|c s IH]; [done|].
  rewrite append_cons. simpl. by rewrite IH.
Qed.

Lemma toLowerCase_allWhiteSpace (s : string) :
  allWhiteSpace s = true -> Js.toLowerCase s = s.
Proof.
  induction s as [|c s IH]; simpl; [done|].
  intros [Hc Hs]%andb_prop. by rewrite lowerUnit_whiteSpace, IH.
Qed.

(** Lowercasing commutes with both trims on a string that is already
    lowercase: what is left after trimming is still lowercase. *)
Lemma toLowerCase_trimStart (s : string) :
  Js.toLowerCase s = s -> Js.toLowerCase (Js.trimStart s) = Js.trimStart s.
Proof.
  induction s as [|c s IH]; simpl; [done|].
  intros H. injection H as Hc Hs.
  destruct (Js.isWhiteSpace c); [by apply IH|].
  simpl. by rewrite Hc, Hs.
Qed.

Lemma toLowerCase_trimEnd (s : string) :
  Js.toLowerCase s = s -> Js.toLowerCase (Js.trimEnd s) = Js.trimEnd s.
Proof.
  induction s as [|c s IH]; simpl; [done|].
  intros H. injection H as Hc Hs. specialize (IH Hs).
  destruct (Js.trimEnd s) as [|d r].
  - destruct (Js.isWhiteSpace c); simpl; [done|]. by rewrite Hc.
  - change (Js.toLowerCase (String c (String d r)))
      with (String (Js.lowerUnit c) (Js.toLowerCase (String d r))).
    by rewrite Hc, IH.
Qed.

Lemma trimEnd_idem (s : string) : Js.trimEnd (Js.trimEnd s) = Js.trimEnd s.
Proof.
  induction s as [|c s IH]; simpl; [done|].
  destruct (Js.trimEnd s) as [|d r] eqn:E.
  - destruct (Js.isWhiteSpace c) eqn:Hc; simpl; [done|]. by rewrite Hc.
  - change (Js.trimEnd (String c (String d r)))
      with (match Js.trimEnd (String d r) with
            | EmptyString =>
                if Js.isWhiteSpace c then EmptyString else String c EmptyString
            | r' => String c r'
            end).
    by rewrite IH.
Qed.

Lemma trimStart_startsClean (s : string) : startsClean (Js.trimStart s).
Proof.
  induction s as [|c s IH]; simpl; [done|].
  by destruct (Js.isWhiteSpace c) eqn:Hc.
Qed.

Lemma trimStart_clean (s : string) : startsClean s -> Js.trimStart s = s.
Proof. destruct s as [|c s]; simpl; [done|]. by intros ->. Qed.

Lemma trimEnd_startsClean (s : string) : startsClean s -> startsClean (Js.trimEnd s).
Proof.
  destruct s as [|c s]; simpl; [done|]. intros Hc.
  destruct (Js.trimEnd s); [by rewrite Hc|done].
Qed.

Lemma trim_idem (s : string) : Js.trim (Js.trim s) = Js.trim s.
Proof.
  unfold Js.trim.
  rewrite (trimStart_clean (Js.trimEnd (Js.trimStart s))).
  - apply trimEnd_idem.
  - apply trimEnd_startsClean, trimStart_startsClean.
Qed.

(** The normalized query is a fixed point of normalization. *)
Lemma normalize_idem (Q : string) :
  Js.trim (Js.toLowerCase (Js.trim (Js.toLowerCase Q)))
  = Js.trim (Js.toLowerCase Q).
Proof.
  assert (Js.toLowerCase (Js.trim (Js.toLowerCase Q)) = Js.trim (Js.toLowerCase Q))
    as ->.
  { unfold Js.trim.
    apply toLowerCase_trimEnd, toLowerCase_trimStart, toLowerCase_idem. }
  apply trim_idem.
Qed.

Lemma trimStart_allWhiteSpace_app (pre s : string) :
  allWhiteSpace pre = true -> Js.trimStart (pre +:+ s) = Js.trimStart s.
Proof.
  induction pre as [|c pre IH]; [done|].
  intros [Hc Hs]%andb_prop. rewrite append_cons. simpl.
  rewrite Hc. by apply IH.
Qed.

Lemma trimEnd_allWhiteSpace (post : string) :
  allWhiteSpace post = true -> Js.trimEnd post = "".
Proof.
  induction post as [|c post IH]; simpl; [done|].
  intros [Hc Hs]%andb_prop. by rewrite IH, Hc.
Qed.

Lemma trimEnd_app_allWhiteSpace (s post : string) :
  allWhiteSpace post = true -> Js.trimEnd (s +:+ post) = Js.trimEnd s.
Proof.
  intros Hp. induction s as [|c s IH].
  - rewrite append_nil_l. by apply trimEnd_allWhiteSpace.
  - rewrite append_cons. simpl. by rewrite IH.
Qed.

(** Trimming the start of a string followed by white space leaves the
    trimmed string followed by white space. *)
Lemma trimStart_app_allWhiteSpace (s post : string) :
  allWhiteSpace post = true ->
  exists post', allWhiteSpace post' = true
                /\ Js.trimStart (s +:+ post) = Js.trimStart s +:+ post'.
Proof.
  intros Hp. induction s as [|c s IH].
  - exists "". split; [done|]. rewrite append_nil_l. simpl.
    clear -Hp. induction post as [|c post IH]; simpl in *; [done|].
    apply andb_prop in Hp as [Hc Hs]. rewrite Hc. by apply IH.
  - rewrite append_cons. simpl. destruct (Js.isWhiteSpace c); [done|].
    exists post. by rewrite append_cons.
Qed.

Lemma trim_pad (pre s post : string) :
  allWhiteSpace pre = true -> allWhiteSpace post = true ->
  Js.trim (pre +:+ s +:+ post) = Js.trim s.
Proof.
  intros Hpre Hpost. unfold Js.trim.
  rewrite trimStart_allWhiteSpace_app by done.
  destruct (trimStart_app_allWhiteSpace s post Hpost) as (post' & Hp' & ->).
  by apply trimEnd_app_allWhiteSpace.
Qed.

Lemma includes_empty (s : string) : Js.includes s "" = true.
Proof. by destruct s. Qed.

Lemma strictEq_true (a b : string) : Js.strictEq a b = true <-> a = b.
Proof. apply String.eqb_eq. Qed.

Lemma strictEq_false (a b : string) : Js.strictEq a b = false <-> a <> b.
Proof. apply String.eqb_neq. Qed.

Lemma noWhiteSpace_trimStart (s : string) :
  noWhiteSpace s = true -> Js.trimStart s = s.
Proof.
  destruct s as [|c s]; simpl; [done|].
  intros [Hc _]%andb_prop. by apply negb_true_iff in Hc as ->.
Qed.

Lemma noWhiteSpace_trimEnd (s : string) :
  noWhiteSpace s = true -> Js.trimEnd s = s.
Proof.
  induction s as [|c s IH]; simpl; [done|].
  intros [Hc Hs]%andb_prop. rewrite (IH Hs).
  apply negb_true_iff in Hc. rewrite Hc. by destruct s.
Qed.

Lemma noWhiteSpace_trim (s : string) : noWhiteSpace s = true -> Js.trim s = s.
Proof.
  intros H. unfold Js.trim. rewrite noWhiteSpace_trimStart by done.
  by apply noWhiteSpace_trimEnd.
Qed.

End StringFacts.

(** ** The ids of the static tables: what the scoring relies on *)

Lemma wellFormedId_normalized (i : string) :
  wellFormedId i -> Js.trim (Js.toLowerCase i) = i.
Proof. intros (_ & -> & Hws). by apply noWhiteSpace_trim. Qed.

Lemma RULES_ids_wellFormed : Forall wellFormedId RULES_ids.
Proof. apply (bool_decide_unpack _). by vm_compute. Qed.

Lemma ANTI_PATTERNS_ids_wellFormed : Forall wellFormedId ANTI_PATTERNS_ids.
Proof. apply (bool_decide_unpack _). by vm_compute. Qed.

Lemma catalog_id_normalized (i : string) :
  i ∈ RULES_ids ++ ANTI_PATTERNS_ids -> Js.trim (Js.toLowerCase i) = i.
Proof.
  intros Hin. apply wellFormedId_normalized.
  pose proof RULES_ids_wellFormed as HR.
  pose proof ANTI_PATTERNS_ids_wellFormed as HA.
  rewrite Forall_forall in HR, HA.
  apply elem_of_app in Hin as [Hin|Hin]; auto.
Qed.

(** ** Scoring by a single query *)

Lemma fold_left_tagStep (normalizedQuery : string) (tags : list string) (acc : Z) :
  fold_left (tagStep normalizedQuery) tags acc
  = acc + sumZ (map (tagContribution normalizedQuery) tags).
Proof.
  revert acc. induction tags as [|tag tags IH]; intros acc; simpl.
  - unfold sumZ. simpl. lia.
  - rewrite IH. unfold tagStep, tagContribution, sumZ.
    unfold SCORE_WEIGHTS.TAG_EXACT, SCORE_WEIGHTS.TAG_PARTIAL. simpl.
    destruct (Js.strictEq tag normalizedQuery); [lia|].
    destruct (Js.includes tag normalizedQuery || Js.includes normalizedQuery tag); lia.
Qed.

(** The loop of the code computes the sum of the rule contributions. *)
Lemma scoreRuleByQuery_storedIdScore (E : ArchitectureRule) (Q : string) :
  scoreRuleByQuery E Q = storedIdScore E Q.
Proof.
  unfold scoreRuleByQuery, storedIdScore, additiveRules. cbv zeta.
  set (nq := Js.trim (Js.toLowerCase Q)).
  destruct (Js.strictEq (id E) nq); [reflexivity|].
  rewrite fold_left_tagStep.
  unfold SCORE_WEIGHTS.NAME_CONTAINS, SCORE_WEIGHTS.DESCRIPTION_CONTAINS,
    SCORE_WEIGHTS.CATEGORY_MATCH.
  destruct (Js.includes (Js.toLowerCase (name E)) nq),
    (Js.includes (Js.toLowerCase (description E)) nq),
    (Js.includes (categoryString (category E)) nq); lia.
Qed.

(** On an entry whose id is already lowercase and trimmed, comparing the
    stored id is comparing the normalized id. *)
Lemma scoreRuleByQuery_specScore (E : ArchitectureRule) (Q : string) :
  Js.trim (Js.toLowerCase (id E)) = id E ->
  scoreRuleByQuery E Q = specScore E Q.
Proof.
  intros Hid. rewrite scoreRuleByQuery_storedIdScore.
  unfold storedIdScore, specScore. by rewrite Hid.
Qed.

(** The score depends on the query through its normalized form only. *)
Lemma scoreRuleByQuery_normalized (E : ArchitectureRule) (Q Q' : string) :
  Js.trim (Js.toLowerCase Q) = Js.trim (Js.toLowerCase Q') ->
  scoreRuleByQuery E Q = scoreRuleByQuery E Q'.
Proof. intros H. unfold scoreRuleByQuery. by rewrite H. Qed.

Lemma additiveRules_empty (E : ArchitectureRule) :
  additiveRules E ""
  = 130 + sumZ (map (fun tag => if Js.strictEq tag "" then 70 else 50) (tags E)).
Proof.
  unfold additiveRules. rewrite !includes_empty.
  assert (map (tagContribution "") (tags E)
          = map (fun tag => if Js.strictEq tag "" then 70 else 50) (tags E)) as ->.
  { apply map_ext. intros tag. unfold tagContribution.
    by rewrite includes_empty. }
  lia.
Qed.

Lemma sumZ_tags_nonneg (tags : list string) :
  0 <= sumZ (map (fun tag => if Js.strictEq tag "" then 70 else 50) tags).
Proof.
  induction tags as [|tag tags IH]; unfold sumZ in *; simpl; [lia|].
  destruct (Js.strictEq tag ""); lia.
Qed.

(** C1.  For every catalog entry and every query, [scoreRuleByQuery] is the
    additive rule system of the specification over the lowercased, trimmed
    query: 100 and nothing else when the id, taken case-insensitively and
    trimmed, equals the normalized query, otherwise 80 for the name, 70 or 50
    per tag, 30 for the description and 20 for the category, added up.
    The code tests the id as it is stored, which is the same test on every
    id that is lowercase and trimmed, as each id of the static tables is;
    for any record at all the score is the rule system with the stored id
    in rule 1. *)
Theorem scoreRuleByQuery_rule_system (E : ArchitectureRule) (Q : string) :
  (id E ∈ RULES_ids ++ ANTI_PATTERNS_ids -> scoreRuleByQuery E Q = specScore E Q)
  /\ (Js.trim (Js.toLowerCase (id E)) = id E -> scoreRuleByQuery E Q = specScore E Q)
  /\ scoreRuleByQuery E Q = storedIdScore E Q.
Proof.
  split; [|split].
  - intros Hin. by apply scoreRuleByQuery_specScore, catalog_id_normalized.
  - apply scoreRuleByQuery_specScore.
  - apply scoreRuleByQuery_storedIdScore.
Qed.

Lemma scoreRuleByQuery_rule_system_witness :
  scoreRuleByQuery thinRoutes " Thin-Routes" = specScore thinRoutes " Thin-Routes".
Proof.
  apply (proj1 (scoreRuleByQuery_rule_system thinRoutes " Thin-Routes")).
  vm_compute. set_solver.
Defined.

(** Outside the static tables the two tests differ: on a record whose id is
    stored with capitals the code goes on to the additive rules where the
    case-insensitive test answers 100. *)
Remark scoreRuleByQuery_capital_id_differs :
  scoreRuleByQuery capitalId "thin-routes" = 50
  /\ specScore capitalId "thin-routes" = 100.
Proof. split; vm_compute; reflexivity. Qed.

(** C2 (as amended).  With the empty query every containment test succeeds,
    so an entry with a non-empty id scores 130 plus 50 for each tag (70 for
    an empty tag), never 0.  An empty token list scores 0 with the boosts of
    the empty token list, and no id of the static tables is empty, so rule 1
    never fires on the empty query there. *)
Theorem empty_query_and_empty_tokens (E : ArchitectureRule) (Hid : id E <> "") :
  scoreRuleByQuery E ""
  = 130 + sumZ (map (fun tag => if Js.strictEq tag "" then 70 else 50) (tags E))
  /\ 130 <= scoreRuleByQuery E ""
  /\ scoreRuleByTokens E [] (detectCategoryBoosts []) = 0
  /\ Forall (fun i => Js.strictEq i (Js.trim (Js.toLowerCase "")) = false)
       (RULES_ids ++ ANTI_PATTERNS_ids).
Proof.
  assert (scoreRuleByQuery E "" = additiveRules E "") as Hscore.
  { rewrite scoreRuleByQuery_storedIdScore. unfold storedIdScore.
    change (Js.trim (Js.toLowerCase "")) with "".
    apply strictEq_false in Hid. cbv zeta. by rewrite Hid. }
  rewrite Hscore, additiveRules_empty.
  split; [reflexivity|]. split.
  - pose proof (sumZ_tags_nonneg (tags E)). lia.
  - split; [reflexivity|].
    apply Forall_forall. intros i Hi.
    repeat (apply elem_of_cons in Hi as [->|Hi]; [reflexivity|]).
    by apply elem_of_nil in Hi.
Qed.

Lemma empty_query_and_empty_tokens_witness :
  scoreRuleByQuery thinRoutes "" = 130 + (50 + (50 + (50 + (50 + (50 + (50 + 0)))))).
Proof.
  apply (proj1 (empty_query_and_empty_tokens thinRoutes ltac:(discriminate))).
Defined.

(** C2 as stated fails: the rule thin-routes scores 430 on the empty query. *)
Lemma empty_query_counterexample :
  scoreRuleByQuery thinRoutes "" = 430 /\ scoreRuleByQuery thinRoutes "" <> 0.
Proof. split; vm_compute; congruence. Qed.

(** ** Scoring by tokens *)

Lemma fold_left_token_scores (E : ArchitectureRule) (T : list string) (acc : Z) :
  fold_left (fun score token => score + scoreRuleByQuery E token) T acc
  = acc + sumZ (map (scoreRuleByQuery E) T).
Proof.
  revert acc. induction T as [|t T IH]; intros acc; simpl.
  - unfold sumZ. simpl. lia.
  - rewrite IH. unfold sumZ. simpl. lia.
Qed.

(** C4.  [scoreRuleByTokens] is the sum of the single-query scores of the
    tokens plus 15 times the boost of the entry's category, 0 when the map
    holds none; so it is for the two tokens boundary and coupling. *)
Theorem scoreRuleByTokens_additive (E : ArchitectureRule) (T : list string)
    (B : gmap RuleCategory Z) :
  scoreRuleByTokens E T B = specTokenScore E T B
  /\ scoreRuleByTokens E ["boundary"; "coupling"] B
     = scoreRuleByQuery E "boundary" + scoreRuleByQuery E "coupling"
       + default 0 (B !! category E) * 15.
Proof.
  unfold scoreRuleByTokens, specTokenScore, CATEGORY_BOOST_MULTIPLIER.
  split.
  - rewrite fold_left_token_scores. destruct (B !! category E); simpl; lia.
  - simpl. lia.
Qed.

(** ** Invariance under normalization of the query *)

(** C8.  Scoring a query and scoring its lowercased, trimmed form give the
    same result; so do two queries that differ in letter case only, and a
    query with white space put around it. *)
Theorem scoreRuleByQuery_normalization_invariant (E : ArchitectureRule) (Q : string) :
  scoreRuleByQuery E (Js.trim (Js.toLowerCase Q)) = scoreRuleByQuery E Q
  /\ (forall Q', Js.toLowerCase Q' = Js.toLowerCase Q ->
        scoreRuleByQuery E Q' = scoreRuleByQuery E Q)
  /\ (forall pre post, allWhiteSpace pre = true -> allWhiteSpace post = true ->
        scoreRuleByQuery E (pre +:+ Q +:+ post) = scoreRuleByQuery E Q).
Proof.
  split; [|split].
  - apply scoreRuleByQuery_normalized, normalize_idem.
  - intros Q' H. apply scoreRuleByQuery_normalized. by rewrite H.
  - intros pre post Hpre Hpost. apply scoreRuleByQuery_normalized.
    rewrite !toLowerCase_append.
    rewrite (toLowerCase_allWhiteSpace pre), (toLowerCase_allWhiteSpace post) by done.
    by apply trim_pad.
Qed.

Lemma scoreRuleByQuery_normalization_invariant_witness :
  scoreRuleByQuery thinRoutes "THIN" = scoreRuleByQuery thinRoutes "Thin"
  /\ scoreRuleByQuery thinRoutes ("  " +:+ "Thin" +:+ " ") = scoreRuleByQuery thinRoutes "Thin".
Proof.
  pose proof (scoreRuleByQuery_normalization_invariant thinRoutes "Thin") as (_ & Hcase & Hpad).
  split.
  - apply Hcase. reflexivity.
  - apply Hpad; reflexivity.
Defined.

(** ** Ranking *)

Section Sorting.
Context {A : Type} (key : A -> Z).

Lemma sortInsert_Permutation (cmp : A -> A -> Z) (x : A) (l : list A) :
  Js.sortInsert cmp x l ≡ₚ x :: l.
Proof.
  induction l as [|y l IH]; simpl; [done|].
  destruct (cmp x y <=? 0); [done|].
  rewrite IH. apply Permutation_swap.
Qed.

Lemma sort_Permutation (cmp : A -> A -> Z) (l : list A) : Js.sort cmp l ≡ₚ l.
Proof.
  induction l as [|x l IH]; simpl; [done|].
  unfold Js.sort in *. simpl. by rewrite sortInsert_Permutation, IH.
Qed.

Lemma sortInsert_descending (x : A) (l : list A) :
  StronglySorted (fun a b => key b <= key a) l ->
  StronglySorted (fun a b => key b <= key a) (Js.sortInsert (fun a b => key b - key a) x l).
Proof.
  induction l as [|y l IH]; intros Hl; simpl.
  - by repeat constructor.
  - apply StronglySorted_inv in Hl as [Hl Hy].
    destruct (key y - key x <=? 0) eqn:Hcmp.
    + apply Z.leb_le in Hcmp. constructor.
      * by constructor.
      * constructor; [lia|].
        eapply Forall_impl; [exact Hy|]. simpl. intros z Hz. lia.
    + apply Z.leb_gt in Hcmp. constructor; [by apply IH|].
      rewrite sortInsert_Permutation. constructor; [lia|done].
Qed.

Lemma sort_descending (l : list A) :
  StronglySorted (fun a b => key b <= key a) (Js.sort (fun a b => key b - key a) l).
Proof.
  induction l as [|x l IH]; unfold Js.sort in *; simpl.
  - constructor.
  - by apply sortInsert_descending.
Qed.

End Sorting.

Section Ranking.
Context {T : Type} (scoreFn : T -> Z).

Local Abbreviation mk := (fun r : T => {| rule := r; score := scoreFn r |}).

Lemma filter_scored (xs : list T) :
  filter (fun s => 0 < score s) (map mk xs)
  = map mk (filter (fun x => 0 < scoreFn x) xs).
Proof.
  induction xs as [|x xs IH]; [done|].
  simpl. rewrite !filter_cons. simpl.
  destruct (decide (0 < scoreFn x)); simpl; by rewrite IH.
Qed.

Lemma sortInsert_scored (x : T) (xs : list T) :
  Js.sortInsert (fun a b => score b - score a) (mk x) (map mk xs)
  = map mk (Js.sortInsert (fun a b => scoreFn b - scoreFn a) x xs).
Proof.
  induction xs as [|y xs IH]; [done|].
  simpl. destruct (scoreFn y - scoreFn x <=? 0); [done|].
  simpl. by rewrite IH.
Qed.

Lemma sort_scored (xs : list T) :
  Js.sort (fun a b => score b - score a) (map mk xs)
  = map mk (Js.sort (fun a b => scoreFn b - scoreFn a) xs).
Proof.
  induction xs as [|x xs IH]; [done|].
  unfold Js.sort in *. simpl. by rewrite IH, sortInsert_scored.
Qed.

Lemma map_rule_mk (xs : list T) : map rule (map mk xs) = xs.
Proof. induction xs as [|x xs IH]; simpl; [done|]. by rewrite IH. Qed.

(** Ranking is sorting the entries of positive score by descending score. *)
Lemma rankRules_sort_filter (xs : list T) :
  rankRules xs scoreFn
  = Js.sort (fun a b => scoreFn b - scoreFn a) (filter (fun x => 0 < scoreFn x) xs).
Proof.
  unfold rankRules.
  by rewrite filter_scored, sort_scored, map_rule_mk.
Qed.

Lemma rankRules_Permutation (xs : list T) :
  rankRules xs scoreFn ≡ₚ filter (fun x => 0 < scoreFn x) xs.
Proof. rewrite rankRules_sort_filter. apply sort_Permutation. Qed.

Lemma rankRules_positive (xs : list T) :
  Forall (fun y => 0 < scoreFn y) (rankRules xs scoreFn).
Proof.
  rewrite rankRules_Permutation. apply Forall_forall.
  intros y Hy. by apply list_elem_of_filter in Hy as [? _].
Qed.

Lemma rankRules_length (xs : list T) :
  (length (rankRules xs scoreFn) <= length xs)%nat.
Proof. rewrite rankRules_Permutation. apply length_filter. Qed.

Lemma rankRules_descending (xs : list T) :
  StronglySorted (fun a b => scoreFn b <= scoreFn a) (rankRules xs scoreFn).
Proof. rewrite rankRules_sort_filter. apply sort_descending. Qed.

Lemma rankRules_nil_iff (xs : list T) :
  rankRules xs scoreFn = [] <-> Forall (fun x => scoreFn x <= 0) xs.
Proof.
  split.
  - intros H. pose proof (rankRules_Permutation xs) as HP. rewrite H in HP.
    apply Permutation_nil_l in HP. apply Forall_forall. intros x Hx.
    destruct (decide (0 < scoreFn x)) as [Hpos|]; [|lia].
    assert (x ∈ filter (fun x => 0 < scoreFn x) xs) as Hin
      by by apply list_elem_of_filter.
    rewrite <- HP in Hin. by apply elem_of_nil in Hin.
  - intros H. apply Permutation_nil_r. rewrite rankRules_Permutation.
    induction H as [|x xs Hx _ IH]; [done|].
    rewrite filter_cons. destruct (decide (0 < scoreFn x)); [lia|done].
Qed.

End Ranking.

Section StoreFacts.
Context {T : Type}.
Implicit Types (st : gmap Store.ref (Store.array T)) (r : Store.ref).

(** A fresh array leaves every array of the store as it was. *)
Lemma alloc_frame st (a : Store.array T) r (v : Store.array T) :
  st !! r = Some v -> <[fresh (dom st) := a]> st !! r = Some v.
Proof.
  intros Hr. rewrite lookup_insert_ne; [done|].
  intros <-. pose proof (is_fresh (dom st)) as Hfresh.
  apply Hfresh, elem_of_dom. by exists v.
Qed.

Lemma alloc_fresh st : st !! fresh (dom st) = None.
Proof. apply not_elem_of_dom, is_fresh. Qed.

(** C3.  Run on a store that holds the array [xs] at [rules], [rankRules]
    returns a reference to an array that holds no entry of score 0, is no
    longer than [xs] and lists its entries by descending score; the array at
    [rules], like every array the store held, is left as it was, and the
    returned array is a new one. *)
Theorem rankRules_ranked_and_input_kept (scoreFn : T -> Z) st r (xs : list T) :
  st !! r = Some (Store.RuleArray xs) ->
  exists out st' ys,
    Store.rankRules r scoreFn st = Some (out, st')
    /\ st' !! out = Some (Store.RuleArray ys)
    /\ ys = rankRules xs scoreFn
    /\ Forall (fun y => scoreFn y <> 0) ys
    /\ (length ys <= length xs)%nat
    /\ StronglySorted (fun a b => scoreFn b <= scoreFn a) ys
    /\ st' !! r = Some (Store.RuleArray xs)
    /\ (forall r' v, st !! r' = Some v -> st' !! r' = Some v)
    /\ st !! out = None.
Proof.
  intros Hr.
  unfold Store.rankRules, Store.mapToScored, Store.filterPositive,
    Store.sortByScore, Store.mapToRule, Store.bind, Store.readRules,
    Store.readScored, Store.alloc, Store.write, Store.ret.
  rewrite Hr.
  set (scored := map (fun x => {| rule := x; score := scoreFn x |}) xs).
  set (st1 := <[fresh (dom st) := Store.ScoredArray scored]> st).
  assert (st1 !! fresh (dom st) = Some (Store.ScoredArray scored)) as ->
    by apply lookup_insert_eq.
  set (kept := filter (fun s => 0 < score s) scored).
  set (st2 := <[fresh (dom st1) := Store.ScoredArray kept]> st1).
  assert (st2 !! fresh (dom st1) = Some (Store.ScoredArray kept)) as ->
    by apply lookup_insert_eq.
  set (sorted := Js.sort (fun a b => score b - score a) kept).
  set (st3 := <[fresh (dom st1) := Store.ScoredArray sorted]> st2).
  assert (st3 !! fresh (dom st1) = Some (Store.ScoredArray sorted)) as ->
    by apply lookup_insert_eq.
  set (st4 := <[fresh (dom st3) := Store.RuleArray (map rule sorted)]> st3).
  assert (forall r' v, st !! r' = Some v -> st1 !! r' = Some v) as H01
    by (intros; by apply alloc_frame).
  assert (forall r' v, st !! r' = Some v -> st3 !! r' = Some v) as H03.
  { intros r' v Hv. unfold st3, st2. rewrite insert_insert_eq.
    apply alloc_frame. by apply H01. }
  assert (forall r' v, st !! r' = Some v -> st4 !! r' = Some v) as H04
    by (intros; by apply alloc_frame, H03).
  exists (fresh (dom st3)), st4, (rankRules xs scoreFn).
  split; [reflexivity|]. split; [apply lookup_insert_eq|].
  split; [reflexivity|]. split.
  { eapply Forall_impl; [apply rankRules_positive|]. simpl. intros; lia. }
  split; [apply rankRules_length|].
  split; [apply rankRules_descending|].
  split; [by apply H04|]. split; [exact H04|].
  destruct (st !! fresh (dom st3)) as [v|] eqn:Hout; [|done].
  apply H03 in Hout. by rewrite alloc_fresh in Hout.
Qed.

End StoreFacts.

Lemma rankRules_ranked_and_input_kept_witness :
  exists out st' ys,
    Store.rankRules 1%positive (fun rule => scoreRuleByQuery rule "controller")
      {[ 1%positive := Store.RuleArray [capitalId; thinRoutes] ]} = Some (out, st')
    /\ st' !! out = Some (Store.RuleArray ys)
    /\ ys = [thinRoutes; capitalId]
    /\ st' !! 1%positive = Some (Store.RuleArray [capitalId; thinRoutes]).
Proof.
  destruct (rankRules_ranked_and_input_kept (fun rule => scoreRuleByQuery rule "controller")
              {[ 1%positive := Store.RuleArray [capitalId; thinRoutes] ]}
              1%positive [capitalId; thinRoutes])
    as (out & st' & ys & Hrun & Hout & Hys & _ & _ & _ & Hin & _).
  - reflexivity.
  - exists out, st', ys. subst ys. repeat split; done.
Defined.

(** ** Slices *)

Section SliceFacts.
Context {A : Type}.
Implicit Types l : list A.

Lemma relIndex_nonneg (len : nat) (i : Z) :
  0 <= i -> Js.relIndex len i = Nat.min (Z.to_nat i) len.
Proof.
  intros Hi. unfold Js.relIndex.
  destruct (i <? 0) eqn:E; [apply Z.ltb_lt in E; lia|]. lia.
Qed.

(** From index 0 to a non-negative end, a slice is the prefix of that
    length. *)
Lemma slice_prefix l (n : Z) : 0 <= n -> Js.slice l 0 n = take (Z.to_nat n) l.
Proof.
  intros Hn. unfold Js.slice. rewrite !relIndex_nonneg by lia.
  change (Z.to_nat 0) with 0%nat. rewrite Nat.min_0_l, Nat.sub_0_r, drop_0.
  destruct (decide (Z.to_nat n <= length l)%nat).
  - by rewrite Nat.min_l by lia.
  - rewrite Nat.min_r by lia. rewrite take_ge by lia.
    symmetry. apply take_ge. lia.
Qed.

(** When the end is not before the end of the array, a slice from a
    non-negative start is what is left after that many elements. *)
Lemma slice_suffix l (k n : Z) :
  0 <= k -> 0 <= n -> (length l <= Z.to_nat n)%nat ->
  Js.slice l k n = drop (Z.to_nat k) l.
Proof.
  intros Hk Hn Hlen. unfold Js.slice. rewrite !relIndex_nonneg by lia.
  rewrite (Nat.min_r (Z.to_nat n)) by lia.
  destruct (decide (Z.to_nat k <= length l)%nat).
  - rewrite Nat.min_l by lia. apply take_ge. rewrite length_drop. lia.
  - rewrite Nat.min_r by lia. rewrite Nat.sub_diag, take_0.
    by rewrite drop_ge by lia.
Qed.

End SliceFacts.

(** ** Result formatting *)

(** With a maximum that is not negative the code and the specification's
    wording agree. *)
Lemma formatSearchResults_specFormat
    (rules antiPatterns : list ArchitectureRule) (options : Options) :
  0 <= default MAX_TOTAL_RESULTS (maxTotal options) ->
  formatSearchResults rules antiPatterns options
  = specFormat rules antiPatterns (emptyMessage options) (remainingHeader options)
      (default MAX_TOTAL_RESULTS (maxTotal options)).
Proof.
  intros Hmax. unfold formatSearchResults, specFormat. cbv zeta.
  set (n := default MAX_TOTAL_RESULTS (maxTotal options)) in *.
  fold (tagAll rules antiPatterns).
  rewrite slice_prefix by done.
  set (truncated := take (Z.to_nat n) (tagAll rules antiPatterns)).
  assert (length truncated <= Z.to_nat n)%nat as Hlen
    by (unfold truncated; rewrite length_take; lia).
  destruct truncated as [|t truncated'] eqn:Htr; [reflexivity|].
  rewrite <- Htr in *.
  replace (length truncated =? 0)%nat with false
    by (symmetry; apply Nat.eqb_neq; rewrite Htr; simpl; lia).
  rewrite slice_prefix by (unfold MAX_DETAILED_RESULTS; lia).
  rewrite slice_suffix by (unfold MAX_DETAILED_RESULTS; lia).
  change (Z.to_nat MAX_DETAILED_RESULTS) with 3%nat.
  f_equal. f_equal. unfold SEPARATOR. f_equal. f_equal.
  destruct (drop 3 truncated) as [|u summary]; [|reflexivity].
  change (0 <? length (@nil TaggedResult))%nat with false. cbv iota.
  unfold renderDetailed. by rewrite app_nil_r.
Qed.

Lemma formatSearchResults_nil (options : Options) :
  formatSearchResults [] [] options = {| content := [emptyMessage options] |}.
Proof.
  unfold formatSearchResults. cbv zeta. simpl "++".
  assert (forall a b, Js.slice (@nil TaggedResult) a b = []) as ->; [|done].
  intros a b. unfold Js.slice. by rewrite drop_nil, take_nil.
Qed.



(** The maximum is a count.  Were a negative number passed for it,
    [slice(0, -1)] would drop the last item instead of keeping none. *)
Remark formatSearchResults_negative_maxTotal :
  formatSearchResults [thinRoutes; capitalId] []
    {| emptyMessage := "none"; remainingHeader := "Other matches";
       maxTotal := Some (-1) |}
  = {| content := [formatRuleAsMarkdown thinRoutes] |}.
Proof. reflexivity. Qed.

(** ** The two search tools *)



Lemma scoreRuleByTokens_specTokenScore (E : ArchitectureRule) (T : list string)
    (B : gmap RuleCategory Z) :
  scoreRuleByTokens E T B = specTokenScore E T B.
Proof.
  unfold scoreRuleByTokens, specTokenScore, CATEGORY_BOOST_MULTIPLIER.
  rewrite fold_left_token_scores. destruct (B !! category E); simpl; lia.
Qed.



(** ** Anti-patterns as rules *)

(** C9.  [antiPatternsAsRules] keeps the length and the order of its input;
    the record at each position has the description of the anti-pattern at
    that position as its rationale and the seven fields of the anti-pattern
    unchanged. *)
Theorem antiPatternsAsRules_frame (antiPatterns : list AntiPattern) :
  length (antiPatternsAsRules antiPatterns) = length antiPatterns
  /\ Forall2
       (fun ap r =>
          rationale r = AP.description ap
          /\ id r = AP.id ap
          /\ name r = AP.name ap
          /\ category r = AP.category ap
          /\ description r = AP.description ap
          /\ tags r = AP.tags ap
          /\ examples r = AP.examples ap
          /\ cleanCodeRefs r = AP.cleanCodeRefs ap)
       antiPatterns (antiPatternsAsRules antiPatterns)
  /\ map asAntiPattern (antiPatternsAsRules antiPatterns) = antiPatterns.
Proof.
  unfold antiPatternsAsRules. split; [apply length_map|]. split.
  - induction antiPatterns as [|ap aps IH]; simpl; constructor; [|exact IH].
    repeat split.
  - induction antiPatterns as [|ap aps IH]; simpl; [done|].
    rewrite IH. f_equal. by destruct ap.
Qed.

(** ** The ids of the static tables *)

(** C10.  Every id of [RULES] and of [ANTI_PATTERNS] is non-empty, lowercase
    and free of white space, and no id occurs twice in its table.  So on an
    entry that carries one of these ids the test of the stored id against the
    normalized query is the case-insensitive, trimmed test that rule 1 of the
    specification describes. *)
Theorem catalog_ids_wellFormed_distinct :
  Forall wellFormedId RULES_ids
  /\ Forall wellFormedId ANTI_PATTERNS_ids
  /\ NoDup RULES_ids
  /\ NoDup ANTI_PATTERNS_ids
  /\ (forall (E : ArchitectureRule) (Q : string),
        id E ∈ RULES_ids ++ ANTI_PATTERNS_ids ->
        Js.strictEq (id E) (Js.trim (Js.toLowerCase Q))
        = Js.strictEq (Js.trim (Js.toLowerCase (id E))) (Js.trim (Js.toLowerCase Q))).
Proof.
  split; [apply RULES_ids_wellFormed|].
  split; [apply ANTI_PATTERNS_ids_wellFormed|].
  split; [apply (bool_decide_unpack _); by vm_compute|].
  split; [apply (bool_decide_unpack _); by vm_compute|].
  intros E Q Hin. by rewrite (catalog_id_normalized (id E)).
Qed.

Lemma catalog_ids_wellFormed_distinct_witness :
  Js.strictEq (id thinRoutes) (Js.trim (Js.toLowerCase "  THIN-Routes"))
  = Js.strictEq (Js.trim (Js.toLowerCase (id thinRoutes)))
      (Js.trim (Js.toLowerCase "  THIN-Routes")).
Proof.
  apply (proj2 (proj2 (proj2 (proj2 catalog_ids_wellFormed_distinct)))).
  vm_compute. set_solver.
Defined.

(** ** Truncated descriptions *)

Lemma length_append (s t : string) :
  String.length (s +:+ t) = (String.length s + String.length t)%nat.
Proof.
  induction s as [|c s IH]; [done|].
  rewrite append_cons. simpl. by rewrite IH.
Qed.

Lemma length_substring_prefix (s : string) (n : nat) :
  (n <= String.length s)%nat -> String.length (String.substring 0 n s) = n.
Proof.
  revert n. induction s as [|c s IH]; intros [|n] Hn; simpl in *; try lia.
  rewrite IH; lia.
Qed.

(** From index 0 to a non-negative end inside the string, a slice is the
    prefix of that length. *)
Lemma sliceStr_prefix (s : string) (n : Z) :
  0 <= n <= Z.of_nat (String.length s) ->
  Js.sliceStr s 0 n = String.substring 0 (Z.to_nat n) s.
Proof.
  intros Hn. unfold Js.sliceStr.
  rewrite (relIndex_nonneg _ 0), (relIndex_nonneg _ n) by lia.
  change (Z.to_nat 0) with 0%nat. rewrite Nat.min_0_l, Nat.sub_0_r.
  by rewrite Nat.min_l by lia.
Qed.

(** A prefix whose last unit is not white space is left alone by
    [trimEnd]. *)
Lemma trimEnd_substring_clean (s : string) (n : nat) (c : ascii) :
  String.get n s = Some c -> Js.isWhiteSpace c = false ->
  Js.trimEnd (String.substring 0 (S n) s) = String.substring 0 (S n) s.
Proof.
  revert n. induction s as [|a s IH]; intros n Hget Hc; [by destruct n|].
  destruct n as [|n].
  - simpl in Hget. injection Hget as ->.
    change (String.substring 0 1 (String c s))
      with (String c (String.substring 0 0 s)).
    assert (String.substring 0 0 s = "") as -> by by destruct s.
    simpl. by rewrite Hc.
  - simpl in Hget.
    change (String.substring 0 (S (S n)) (String a s))
      with (String a (String.substring 0 (S n) s)).
    specialize (IH n Hget Hc).
    destruct s as [|b s]; [by destruct n|].
    change (String.substring 0 (S n) (String b s))
      with (String b (String.substring 0 n s)) in *.
    change (Js.trimEnd (String a (String b (String.substring 0 n s))))
      with (match Js.trimEnd (String b (String.substring 0 n s)) with
            | EmptyString =>
                if Js.isWhiteSpace a then EmptyString else String a EmptyString
            | r' => String a r'
            end).
    by rewrite IH.
Qed.

Lemma truncateDescription_within (d : string) (limit : Z) :
  Z.of_nat (String.length d) <= limit -> truncateDescription d (Some limit) = d.
Proof.
  intros H. unfold truncateDescription. simpl.
  destruct (Z.of_nat (String.length d) <=? limit) eqn:E; [done|].
  apply Z.leb_gt in E. lia.
Qed.

Lemma truncateDescription_over (d : string) (limit : Z) :
  0 <= limit < Z.of_nat (String.length d) ->
  truncateDescription d (Some limit)
  = Js.trimEnd (String.substring 0 (Z.to_nat limit) d) +:+ "...".
Proof.
  intros H. unfold truncateDescription. simpl.
  destruct (Z.of_nat (String.length d) <=? limit) eqn:E;
    [apply Z.leb_le in E; lia|].
  by rewrite sliceStr_prefix by lia.
Qed.

(** A prefix whose last unit is white space loses at least that unit to
    [trimEnd]. *)
Lemma trimEnd_substring_white (s : string) (n : nat) (c : ascii) :
  String.get n s = Some c -> Js.isWhiteSpace c = true ->
  (String.length (Js.trimEnd (String.substring 0 (S n) s)) <= n)%nat.
Proof.
  revert n. induction s as [|a s IH]; intros n Hget Hc; [by destruct n|].
  destruct n as [|n].
  - simpl in Hget. injection Hget as ->.
    change (String.substring 0 1 (String c s))
      with (String c (String.substring 0 0 s)).
    assert (String.substring 0 0 s = "") as -> by by destruct s.
    simpl. by rewrite Hc.
  - simpl in Hget.
    change (String.substring 0 (S (S n)) (String a s))
      with (String a (String.substring 0 (S n) s)).
    specialize (IH n Hget Hc).
    change (Js.trimEnd (String a (String.substring 0 (S n) s)))
      with (match Js.trimEnd (String.substring 0 (S n) s) with
            | EmptyString =>
                if Js.isWhiteSpace a then EmptyString else String a EmptyString
            | r' => String a r'
            end).
    destruct (Js.trimEnd (String.substring 0 (S n) s)) as [|e r].
    + destruct (Js.isWhiteSpace a); simpl; lia.
    + simpl in *. lia.
Qed.

(** C7.  A description no longer than the limit comes back unchanged.  A
    longer one, for a limit that is not negative, comes back as its prefix
    of [limit] units with the white space at the end of the prefix trimmed,
    followed by three dots.  Trimming removes nothing when the last unit of
    the prefix is not white space, and at least that unit when it is: so a
    string of 10 units with limit 5 gives exactly its first 5 units and the
    dots when its fifth unit is not white space, as for every string of 10
    units that starts with abcdef, and fewer than 5 units and the dots when
    its fifth unit is white space.  A limit left out is 100. *)
Theorem truncateDescription_prefix_and_ellipsis (d : string) (limit : Z) :
  (Z.of_nat (String.length d) <= limit -> truncateDescription d (Some limit) = d)
  /\ (0 <= limit < Z.of_nat (String.length d) ->
      truncateDescription d (Some limit)
      = Js.trimEnd (String.substring 0 (Z.to_nat limit) d) +:+ "..."
      /\ String.length (String.substring 0 (Z.to_nat limit) d) = Z.to_nat limit)
  /\ (0 < limit < Z.of_nat (String.length d) ->
      (exists c, String.get (Z.to_nat limit - 1) d = Some c
                 /\ Js.isWhiteSpace c = false) ->
      truncateDescription d (Some limit)
      = String.substring 0 (Z.to_nat limit) d +:+ "...")
  /\ (0 < limit < Z.of_nat (String.length d) ->
      (exists c, String.get (Z.to_nat limit - 1) d = Some c
                 /\ Js.isWhiteSpace c = true) ->
      exists p, p = Js.trimEnd (String.substring 0 (Z.to_nat limit) d)
                /\ (String.length p < Z.to_nat limit)%nat
                /\ truncateDescription d (Some limit) = p +:+ "...")
  /\ (String.length d = 10%nat ->
      (exists c, String.get 4 d = Some c /\ Js.isWhiteSpace c = false) ->
      exists p, String.length p = 5%nat
                /\ p = String.substring 0 5 d
                /\ truncateDescription d (Some 5) = p +:+ "...")
  /\ (String.length d = 10%nat ->
      (exists c, String.get 4 d = Some c /\ Js.isWhiteSpace c = true) ->
      exists p, (String.length p < 5)%nat
                /\ p = Js.trimEnd (String.substring 0 5 d)
                /\ truncateDescription d (Some 5) = p +:+ "...")
  /\ (String.length d = 10%nat -> String.substring 0 6 d = "abcdef" ->
      truncateDescription d (Some 5) = "abcde...")
  /\ truncateDescription d None = truncateDescription d (Some 100).
Proof.
  assert (forall n : Z, 0 < n < Z.of_nat (String.length d) ->
          (exists c, String.get (Z.to_nat n - 1) d = Some c
                     /\ Js.isWhiteSpace c = false) ->
          truncateDescription d (Some n)
          = String.substring 0 (Z.to_nat n) d +:+ "...") as Hclean.
  { intros n Hl (c & Hget & Hc).
    rewrite truncateDescription_over by lia.
    replace (Z.to_nat n) with (S (Z.to_nat n - 1)) at 1 2 by lia.
    by rewrite (trimEnd_substring_clean d _ c). }
  assert (forall n : Z, 0 < n < Z.of_nat (String.length d) ->
          (exists c, String.get (Z.to_nat n - 1) d = Some c
                     /\ Js.isWhiteSpace c = true) ->
          exists p, p = Js.trimEnd (String.substring 0 (Z.to_nat n) d)
                    /\ (String.length p < Z.to_nat n)%nat
                    /\ truncateDescription d (Some n) = p +:+ "...") as Hwhite.
  { intros n Hl (c & Hget & Hc).
    exists (Js.trimEnd (String.substring 0 (Z.to_nat n) d)).
    split; [reflexivity|]. split; [|apply truncateDescription_over; lia].
    pose proof (trimEnd_substring_white d _ c Hget Hc) as Hlen.
    replace (S (Z.to_nat n - 1)) with (Z.to_nat n) in Hlen by lia. lia. }
  split; [apply truncateDescription_within|].
  split.
  { intros H. split; [by apply truncateDescription_over|].
    apply length_substring_prefix. lia. }
  split; [apply Hclean|].
  split; [apply Hwhite|].
  split.
  { intros Hlen Hc.
    exists (String.substring 0 5 d).
    split; [apply length_substring_prefix; lia|]. split; [reflexivity|].
    apply (Hclean 5); [lia|exact Hc]. }
  split.
  { intros Hlen Hc.
    destruct (Hwhite 5 ltac:(lia) Hc) as (p & Hp & Hlt & Heq).
    exists p. split; [exact Hlt|]. by split. }
  split; [|reflexivity].
  intros Hlen Hpre.
  assert (exists rest, d = "abcdef" +:+ rest) as (rest & ->).
  { do 6 (destruct d as [|? d]; [discriminate Hpre|]).
    simpl in Hpre. injection Hpre as -> -> -> -> -> -> _. by exists d. }
  rewrite (Hclean 5).
  - reflexivity.
  - lia.
  - exists "e"%char. split; reflexivity.
Qed.

Lemma truncateDescription_prefix_and_ellipsis_witness :
  truncateDescription "abcdefghij" (Some 5) = "abcde..."
  /\ truncateDescription "abcdefghij" (Some 10) = "abcdefghij"
  /\ truncateDescription "abcd efghi" (Some 5) = "abcd..."
  /\ (exists p, (String.length p < 5)%nat
                /\ truncateDescription "abcd efghi" (Some 5) = p +:+ "...").
Proof.
  pose proof (truncateDescription_prefix_and_ellipsis "abcdefghij" 5)
    as (_ & _ & Hclean & _).
  pose proof (truncateDescription_prefix_and_ellipsis "abcdefghij" 10)
    as (Hwithin & _).
  pose proof (truncateDescription_prefix_and_ellipsis "abcd efghi" 5)
    as (_ & Hover & _ & _ & _ & Hwhite & _).
  split.
  { rewrite Hclean; [reflexivity | simpl; lia |].
    exists "e"%char. split; reflexivity. }
  split.
  { apply Hwithin. simpl. lia. }
  split.
  { destruct Hover as [-> _]; [simpl; lia|]. reflexivity. }
  destruct Hwhite as (p & Hlt & _ & Heq); [reflexivity| |by exists p].
  exists " "%char. split; reflexivity.
Defined.

(** * Further properties of the code *)

(** ** Category boosts *)

Lemma boosts_fold (kw : gmap string RuleCategory) (c : RuleCategory)
    (tokens : list string) (m : gmap RuleCategory Z) :
  fold_left
    (fun (boosts : gmap RuleCategory Z) token =>
       match kw !! token with
       | Some category =>
           let current := default 0 (boosts !! category) in
           <[category := current + 1]> boosts
       | None => boosts
       end)
    tokens m !! c
  = let n := length (filter (fun t => kw !! t = Some c) tokens) in
    if decide (n = 0%nat) then m !! c
    else Some (default 0 (m !! c) + Z.of_nat n).
Proof.
  revert m. induction tokens as [|t tokens IH]; intros m; [done|].
  cbn [fold_left]. rewrite IH. cbv zeta. rewrite filter_cons.
  set (n := length (filter (fun t => kw !! t = Some c) tokens)).
  destruct (kw !! t) as [c'|] eqn:Hk.
  - destruct (decide (c' = c)) as [->|Hne].
    + rewrite (decide_True (P := Some c = Some c)) by done.
      cbn [length]. fold n. rewrite lookup_insert_eq. cbn [default].
      rewrite (decide_False (P := S n = 0%nat)) by lia.
      destruct (decide (n = 0%nat)) as [E|E]; cbv [Datatypes.id]; f_equal; lia.
    + rewrite (decide_False (P := Some c' = Some c)) by congruence.
      fold n. by rewrite lookup_insert_ne.
  - rewrite (decide_False (P := None = Some c)) by congruence. by fold n.
Qed.

Lemma detectCategoryBoosts_lookup (c : RuleCategory) (tokens : list string) :
  detectCategoryBoosts tokens !! c
  = if decide (keywordCount c tokens = 0%nat) then None
    else Some (Z.of_nat (keywordCount c tokens)).
Proof.
  unfold detectCategoryBoosts, keywordCount.
  rewrite (boosts_fold CATEGORY_KEYWORDS). cbv zeta.
  rewrite lookup_empty. destruct (decide _); [done|].
  cbn [default]. f_equal; lia.
Qed.

Lemma keywordCount_le (c : RuleCategory) (tokens : list string) :
  (keywordCount c tokens <= length tokens)%nat.
Proof. apply length_filter. Qed.

(** X1.  The boost of a category is the number of tokens that are keywords
    of it, counted with repetitions, and a category with no keyword among
    the tokens has no entry; so a boost that is there lies between 1 and the
    number of tokens. *)
Theorem detectCategoryBoosts_counts (tokens : list string) (c : RuleCategory) :
  (detectCategoryBoosts tokens !! c = None <-> keywordCount c tokens = 0%nat)
  /\ (forall n : Z, detectCategoryBoosts tokens !! c = Some n ->
        n = Z.of_nat (keywordCount c tokens) /\ 1 <= n <= Z.of_nat (length tokens)).
Proof.
  rewrite detectCategoryBoosts_lookup.
  pose proof (keywordCount_le c tokens).
  destruct (decide (keywordCount c tokens = 0%nat)) as [E|E].
  - split; [done|]. intros n Hn. discriminate.
  - split; [split; [discriminate|contradiction]|].
    intros n [= <-]. lia.
Qed.

Lemma detectCategoryBoosts_counts_witness :
  3 = Z.of_nat (keywordCount ModuleStructure ["module"; "layout"; "the"; "module"])
  /\ 1 <= 3 <= Z.of_nat (length ["module"; "layout"; "the"; "module"]).
Proof.
  apply (proj2 (detectCategoryBoosts_counts
                  ["module"; "layout"; "the"; "module"] ModuleStructure) 3).
  vm_compute. reflexivity.
Defined.

(** ** Bounds of the scores *)

Lemma tagContribution_bounds (nq tag : string) : 0 <= tagContribution nq tag <= 70.
Proof.
  unfold tagContribution. destruct (Js.strictEq tag nq); [lia|].
  destruct (Js.includes tag nq || Js.includes nq tag); lia.
Qed.

Lemma sumZ_tagContribution_bounds (nq : string) (tags : list string) :
  0 <= sumZ (map (tagContribution nq) tags) <= 70 * Z.of_nat (length tags).
Proof.
  induction tags as [|tag tags IH]; unfold sumZ in *; simpl; [lia|].
  pose proof (tagContribution_bounds nq tag). lia.
Qed.

Lemma scoreRuleByQuery_range (E : ArchitectureRule) (Q : string) :
  0 <= scoreRuleByQuery E Q <= 130 + 70 * Z.of_nat (length (tags E)).
Proof.
  rewrite scoreRuleByQuery_storedIdScore. unfold storedIdScore, additiveRules.
  cbv zeta. set (nq := Js.trim (Js.toLowerCase Q)).
  pose proof (sumZ_tagContribution_bounds nq (tags E)).
  destruct (Js.strictEq (id E) nq); [lia|].
  destruct (Js.includes (Js.toLowerCase (name E)) nq),
    (Js.includes (Js.toLowerCase (description E)) nq),
    (Js.includes (categoryString (category E)) nq); lia.
Qed.

Lemma sumZ_scores_range (E : ArchitectureRule) (T : list string) :
  0 <= sumZ (map (scoreRuleByQuery E) T)
    <= Z.of_nat (length T) * (130 + 70 * Z.of_nat (length (tags E))).
Proof.
  induction T as [|t T IH]; unfold sumZ in *; simpl length; simpl; [lia|].
  pose proof (scoreRuleByQuery_range E t). nia.
Qed.

(** X2.  A score is never negative.  A single-query score is at most 130
    plus 70 for each tag of the entry; a token score, with the boosts of its
    own tokens, is at most that plus 15 for each token. *)
Theorem scores_bounded (E : ArchitectureRule) (Q : string) (T : list string) :
  0 <= scoreRuleByQuery E Q <= 130 + 70 * Z.of_nat (length (tags E))
  /\ 0 <= scoreRuleByTokens E T (detectCategoryBoosts T)
       <= Z.of_nat (length T) * (145 + 70 * Z.of_nat (length (tags E))).
Proof.
  split; [apply scoreRuleByQuery_range|].
  rewrite scoreRuleByTokens_specTokenScore. unfold specTokenScore.
  pose proof (sumZ_scores_range E T).
  rewrite detectCategoryBoosts_lookup.
  pose proof (keywordCount_le (category E) T).
  destruct (decide _); lia.
Qed.

(** ** The order of the tokens *)

Lemma sumZ_Permutation (l l' : list Z) : l ≡ₚ l' -> sumZ l = sumZ l'.
Proof.
  unfold sumZ. induction 1; simpl; lia.
Qed.

Lemma keywordCount_Permutation (c : RuleCategory) (T T' : list string) :
  T ≡ₚ T' -> keywordCount c T = keywordCount c T'.
Proof. intros H. unfold keywordCount. by rewrite H. Qed.

(** X3.  The boosts and the token score, hence the ranking of
    search-by-context, depend on which tokens occur and how often, not on
    their order. *)
Theorem token_order_irrelevant (T T' : list string) (E : ArchitectureRule) :
  T ≡ₚ T' ->
  detectCategoryBoosts T = detectCategoryBoosts T'
  /\ scoreRuleByTokens E T (detectCategoryBoosts T)
     = scoreRuleByTokens E T' (detectCategoryBoosts T').
Proof.
  intros HP.
  assert (detectCategoryBoosts T = detectCategoryBoosts T') as Hb.
  { apply map_eq. intros c. rewrite !detectCategoryBoosts_lookup.
    by rewrite (keywordCount_Permutation c T T'). }
  split; [exact Hb|].
  rewrite !scoreRuleByTokens_specTokenScore, Hb. unfold specTokenScore.
  f_equal. apply sumZ_Permutation. by apply Permutation_map.
Qed.

Lemma token_order_irrelevant_witness :
  scoreRuleByTokens thinRoutes ["thin"; "route"; "module"]
    (detectCategoryBoosts ["thin"; "route"; "module"])
  = scoreRuleByTokens thinRoutes ["module"; "thin"; "route"]
      (detectCategoryBoosts ["module"; "thin"; "route"]).
Proof.
  apply (proj2 (token_order_irrelevant ["thin"; "route"; "module"]
                  ["module"; "thin"; "route"] thinRoutes
                  ltac:(symmetry; apply (Permutation_cons_append ["thin"; "route"] "module")))).
Defined.

(** ** More on ranking *)

Section RankingMore.
Context {T : Type} (scoreFn : T -> Z).

Lemma sortInsert_head (x : T) (l : list T) :
  Forall (fun y => scoreFn y <= scoreFn x) l ->
  Js.sortInsert (fun a b => scoreFn b - scoreFn a) x l = x :: l.
Proof.
  destruct l as [|y l]; [done|]. intros [Hy _]%Forall_cons. simpl.
  destruct (scoreFn y - scoreFn x <=? 0) eqn:E; [done|].
  apply Z.leb_gt in E. lia.
Qed.

Lemma sort_descending_fixed (l : list T) :
  StronglySorted (fun a b => scoreFn b <= scoreFn a) l ->
  Js.sort (fun a b => scoreFn b - scoreFn a) l = l.
Proof.
  induction 1 as [|x l Hl IH Hx]; [done|].
  unfold Js.sort in *. simpl. rewrite IH. by apply sortInsert_head.
Qed.

Lemma filter_all (P : T -> Prop) `{!forall x, Decision (P x)} (l : list T) :
  Forall P l -> filter P l = l.
Proof.
  induction 1 as [|x l Hx _ IH]; [done|].
  by rewrite filter_cons_True, IH.
Qed.

(** A list that is already ranked is left as it is. *)
Lemma rankRules_fixed (xs : list T) :
  Forall (fun x => 0 < scoreFn x) xs ->
  StronglySorted (fun a b => scoreFn b <= scoreFn a) xs ->
  rankRules xs scoreFn = xs.
Proof.
  intros Hpos Hsorted. rewrite rankRules_sort_filter.
  rewrite filter_all by done. by apply sort_descending_fixed.
Qed.

(** X4.  The ranked list holds exactly the entries of score above 0, each
    as many times as the input holds it. *)
Theorem rankRules_keeps_exactly_the_matches (xs : list T) :
  rankRules xs scoreFn ≡ₚ filter (fun x => 0 < scoreFn x) xs
  /\ (forall x, x ∈ rankRules xs scoreFn <-> x ∈ xs /\ 0 < scoreFn x).
Proof.
  split; [apply rankRules_Permutation|].
  intros x. rewrite rankRules_Permutation, list_elem_of_filter. tauto.
Qed.

(** X5.  Ranking a ranked list changes nothing. *)
Theorem rankRules_idempotent (xs : list T) :
  rankRules (rankRules xs scoreFn) scoreFn = rankRules xs scoreFn.
Proof.
  apply rankRules_fixed; [apply rankRules_positive|apply rankRules_descending].
Qed.

Lemma filter_sortInsert_key (k : Z) (x : T) (l : list T) :
  filter (fun y => scoreFn y = k) (Js.sortInsert (fun a b => scoreFn b - scoreFn a) x l)
  = filter (fun y => scoreFn y = k) (x :: l).
Proof.
  induction l as [|y l IH]; [done|]. simpl.
  destruct (scoreFn y - scoreFn x <=? 0) eqn:E; [done|].
  apply Z.leb_gt in E. rewrite filter_cons, IH, !filter_cons.
  destruct (decide (scoreFn y = k)), (decide (scoreFn x = k)); try done. lia.
Qed.

Lemma filter_sort_key (k : Z) (l : list T) :
  filter (fun y => scoreFn y = k) (Js.sort (fun a b => scoreFn b - scoreFn a) l)
  = filter (fun y => scoreFn y = k) l.
Proof.
  induction l as [|x l IH]; [done|].
  unfold Js.sort in *. simpl. rewrite filter_sortInsert_key.
  by rewrite !filter_cons, IH.
Qed.

(** X6.  Entries of equal score keep the order they have in the input (the
    sort of an array is stable): among the ranked entries, those of any
    given score above 0 are the input entries of that score, in input
    order. *)
Theorem rankRules_stable (xs : list T) (k : Z) :
  0 < k ->
  filter (fun y => scoreFn y = k) (rankRules xs scoreFn)
  = filter (fun y => scoreFn y = k) xs.
Proof.
  intros Hk. rewrite rankRules_sort_filter, filter_sort_key.
  rewrite list_filter_filter. apply list_filter_iff. intros x. lia.
Qed.

End RankingMore.

Lemma rankRules_stable_witness :
  filter (fun y => scoreRuleByQuery y "route" = 200)
    (rankRules [capitalId; godModuleAsRule; thinRoutes]
       (fun y => scoreRuleByQuery y "route"))
  = filter (fun y => scoreRuleByQuery y "route" = 200)
      [capitalId; godModuleAsRule; thinRoutes].
Proof.
  apply (rankRules_stable (fun y => scoreRuleByQuery y "route")
           [capitalId; godModuleAsRule; thinRoutes] 200).
  lia.
Defined.

(** ** The tokenizer *)

Section TokenizerFacts.

Lemma isTokenUnit_not_whiteSpace (c : ascii) :
  isTokenUnit c = true -> Js.isWhiteSpace c = false.
Proof. by destruct c as [[] [] [] [] [] [] [] []]. Qed.

Lemma isTokenUnit_lowerUnit (c : ascii) :
  isTokenUnit c = true -> Js.lowerUnit c = c.
Proof. by destruct c as [[] [] [] [] [] [] [] []]. Qed.

Lemma space_whiteSpace : Js.isWhiteSpace " "%char = true.
Proof. reflexivity. Qed.

Lemma space_not_tokenUnit : isTokenUnit " "%char = false.
Proof. reflexivity. Qed.

Lemma append_assoc (a b c : string) : (a +:+ b) +:+ c = a +:+ (b +:+ c).
Proof.
  induction a as [|x a IH]; [done|]. by rewrite !append_cons, IH.
Qed.

Lemma allUnits_append (P : ascii -> bool) (a b : string) :
  allUnits P (a +:+ b) = allUnits P a && allUnits P b.
Proof.
  induction a as [|x a IH]; [done|].
  rewrite append_cons. simpl. by rewrite IH, andb_assoc.
Qed.

(** Replacing the runs and splitting at white space gives, up to pieces of
    fewer than two units, the maximal runs of units of the class. *)
Lemma splitGo_replaceRuns (s : string) :
  (forall cur,
     List.filter (fun token => (1 <? String.length token)%nat)
       (splitGo cur false (replaceRuns false s))
     = List.filter (fun token => (1 <? String.length token)%nat) (tokenRuns cur s))
  /\ List.filter (fun token => (1 <? String.length token)%nat)
       (splitGo "" true (replaceRuns true s))
     = List.filter (fun token => (1 <? String.length token)%nat) (tokenRuns "" s).
Proof.
  induction s as [|c r [IHA IHB]]; [done|].
  split.
  - intros cur. cbn [replaceRuns tokenRuns].
    destruct (isTokenUnit c) eqn:Hc.
    + cbn [splitGo]. rewrite (isTokenUnit_not_whiteSpace c Hc). apply IHA.
    + cbn [splitGo]. rewrite space_whiteSpace. cbn [List.filter].
      by rewrite IHB.
  - cbn [replaceRuns tokenRuns].
    destruct (isTokenUnit c) eqn:Hc.
    + cbn [splitGo]. rewrite (isTokenUnit_not_whiteSpace c Hc). apply IHA.
    + cbn [List.filter String.length Nat.ltb Nat.leb]. apply IHB.
Qed.

Lemma tokenize_tokenRuns (text : string) :
  tokenize text
  = List.filter (fun token => (1 <? String.length token)%nat)
      (tokenRuns "" (Js.toLowerCase text)).
Proof. unfold tokenize, splitWhiteSpace. apply splitGo_replaceRuns. Qed.

Lemma tokenRuns_allUnits (s cur : string) :
  allUnits isTokenUnit cur = true ->
  Forall (fun t => allUnits isTokenUnit t = true) (tokenRuns cur s).
Proof.
  revert cur. induction s as [|c r IH]; intros cur Hcur; cbn [tokenRuns].
  - by constructor.
  - destruct (isTokenUnit c) eqn:Hc.
    + apply IH. rewrite allUnits_append, Hcur. simpl. by rewrite Hc.
    + constructor; [done|]. by apply IH.
Qed.

Lemma tokenRuns_separator (a b cur : string) (c : ascii) :
  isTokenUnit c = false ->
  tokenRuns cur (a +:+ String c b) = tokenRuns cur a ++ tokenRuns "" b.
Proof.
  intros Hc. revert cur. induction a as [|d a IH]; intros cur.
  - rewrite append_nil_l. cbn [tokenRuns]. by rewrite Hc.
  - rewrite append_cons. cbn [tokenRuns].
    destruct (isTokenUnit d); [apply IH|]. by rewrite IH.
Qed.

Lemma tokenRuns_word (w cur : string) :
  allUnits isTokenUnit w = true -> tokenRuns cur w = [cur +:+ w].
Proof.
  revert cur. induction w as [|c w IH]; intros cur Hw.
  - by rewrite append_nil_r.
  - simpl in Hw. apply andb_prop in Hw as [Hc Hw]. cbn [tokenRuns].
    rewrite Hc, IH by done. by rewrite append_assoc.
Qed.

Lemma allUnits_toLowerCase (w : string) :
  allUnits isTokenUnit w = true -> Js.toLowerCase w = w.
Proof.
  induction w as [|c w IH]; [done|]. simpl.
  intros [Hc Hw]%andb_prop. by rewrite isTokenUnit_lowerUnit, IH.
Qed.

Lemma tokenize_tokens (text : string) :
  Forall (fun t => wellFormedToken t /\ Js.toLowerCase t = t) (tokenize text).
Proof.
  rewrite tokenize_tokenRuns. apply Forall_forall. intros t Ht.
  apply list_elem_of_In, List.filter_In in Ht as [Hin Hlen].
  apply Nat.ltb_lt in Hlen.
  pose proof (tokenRuns_allUnits (Js.toLowerCase text) "" eq_refl) as Hall.
  rewrite Forall_forall in Hall.
  assert (allUnits isTokenUnit t = true) as Hu
    by by apply Hall, list_elem_of_In.
  split; [split; [lia|done]|]. by apply allUnits_toLowerCase.
Qed.

(** X7.  Every token the tokenizer returns has two units or more, all of
    them lowercase letters, digits or hyphens, and is its own lowercase
    form; and the tokens do not depend on the letter case of the text. *)
Theorem tokenize_normal_form (text : string) :
  Forall (fun t => wellFormedToken t /\ Js.toLowerCase t = t) (tokenize text)
  /\ tokenize (Js.toLowerCase text) = tokenize text.
Proof.
  split; [apply tokenize_tokens|].
  unfold tokenize. by rewrite toLowerCase_idem.
Qed.

(** X8.  A unit that is no letter, digit or hyphen separates: the tokens of
    a text are the tokens of what comes before such a unit followed by the
    tokens of what comes after it, whatever the unit. *)
Theorem tokenize_separator (a b : string) (c : ascii) :
  isTokenUnit (Js.lowerUnit c) = false ->
  tokenize (a +:+ String c b) = tokenize a ++ tokenize b.
Proof.
  intros Hc. rewrite !tokenize_tokenRuns, toLowerCase_append.
  cbn [Js.toLowerCase]. rewrite tokenRuns_separator by done.
  apply List.filter_app.
Qed.

Lemma tokenize_word (w : string) :
  wellFormedToken w -> tokenize w = [w].
Proof.
  intros [Hlen Hw]. rewrite tokenize_tokenRuns, allUnits_toLowerCase by done.
  rewrite tokenRuns_word by done. rewrite append_nil_l. cbn [List.filter].
  by replace (1 <? String.length w)%nat with true
    by (symmetry; apply Nat.ltb_lt; lia).
Qed.

Lemma join_cons (sep x : string) (y : string) (l : list string) :
  Js.join sep (x :: y :: l) = x +:+ sep +:+ Js.join sep (y :: l).
Proof. reflexivity. Qed.

(** X9.  Tokens joined by single spaces tokenize back to themselves: for a
    list of tokens of the tokenizer's form, the tokens of their join are the
    list; so the tokens of a text, joined and tokenized again, are the same
    tokens. *)
Theorem tokenize_join (ws : list string) :
  Forall wellFormedToken ws -> tokenize (Js.join " " ws) = ws.
Proof.
  induction 1 as [|w ws Hw Hws IH]; [done|].
  destruct ws as [|w' ws].
  - by apply tokenize_word.
  - rewrite join_cons.
    change (w +:+ " " +:+ Js.join " " (w' :: ws))
      with (w +:+ String " "%char (Js.join " " (w' :: ws))).
    rewrite tokenize_separator by done.
    by rewrite tokenize_word, IH.
Qed.

End TokenizerFacts.

Lemma tokenize_separator_witness :
  tokenize ("thin" +:+ String ","%char " Routes")
  = tokenize "thin" ++ tokenize " Routes".
Proof. apply tokenize_separator. reflexivity. Defined.

Lemma tokenize_join_witness :
  tokenize (Js.join " " ["thin"; "event-bus"; "v2"]) = ["thin"; "event-bus"; "v2"].
Proof.
  apply tokenize_join. repeat constructor.
Defined.

(** ** Stop words *)

Lemma filter_idempotent {A} (f : A -> bool) (l : list A) :
  List.filter f (List.filter f l) = List.filter f l.
Proof.
  induction l as [|x l IH]; [done|]. simpl.
  destruct (f x) eqn:E; [|done]. simpl. by rewrite E, IH.
Qed.

Lemma removeStopWords_elem_of (tokens : list string) (t : string) :
  t ∈ removeStopWords tokens <-> t ∈ tokens /\ t ∉ STOP_WORDS.
Proof.
  unfold removeStopWords. rewrite !list_elem_of_In, List.filter_In.
  by rewrite negb_true_iff, bool_decide_eq_false.
Qed.

(** X10.  Removing the stop words keeps exactly the tokens that are no stop
    word, in their order; doing it twice is doing it once, and it can be
    done piece by piece. *)
Theorem removeStopWords_filter (tokens tokens' : list string) :
  (forall t, t ∈ removeStopWords tokens <-> t ∈ tokens /\ t ∉ STOP_WORDS)
  /\ sublist (removeStopWords tokens) tokens
  /\ removeStopWords (removeStopWords tokens) = removeStopWords tokens
  /\ removeStopWords (tokens ++ tokens')
     = removeStopWords tokens ++ removeStopWords tokens'.
Proof.
  split; [intros t; apply removeStopWords_elem_of|].
  split.
  { unfold removeStopWords. induction tokens as [|t tokens IH]; [done|].
    cbn [List.filter]. destruct (negb _); by constructor. }
  split; [apply filter_idempotent|apply List.filter_app].
Qed.

(** X11.  Every token that search-by-context scores has two units or more,
    all of them lowercase letters, digits or hyphens, and is no stop word;
    in particular none is empty, so no token meets every substring test the
    way the empty query does. *)
Theorem context_tokens_wellFormed (context : string) :
  Forall (fun t => wellFormedToken t /\ (t ∉ STOP_WORDS) /\ t <> "")
    (removeStopWords (tokenize context)).
Proof.
  apply Forall_forall. intros t [Hin Hstop]%removeStopWords_elem_of.
  pose proof (tokenize_tokens context) as Hwf.
  rewrite Forall_forall in Hwf. destruct (Hwf t Hin) as [[Hlen Hu] _].
  repeat split; try done. intros ->. simpl in Hlen. lia.
Qed.

(** ** Catalog access *)

Lemma categoryString_inj (c c' : RuleCategory) :
  categoryString c = categoryString c' -> c = c'.
Proof. destruct c, c'; intros H; try reflexivity; discriminate H. Qed.

Lemma isValidCategory_categoryString (c : RuleCategory) :
  isValidCategory (categoryString c) = true.
Proof. by destruct c. Qed.

Lemma isValidCategory_true (s : string) :
  isValidCategory s = true <-> exists c, categoryString c = s.
Proof.
  split.
  - unfold isValidCategory. intros (c & _ & Hc)%existsb_exists.
    exists c. by apply strictEq_true.
  - intros [c <-]. apply isValidCategory_categoryString.
Qed.

(** X12.  A string is a valid category exactly when it is the string of one
    of the ten categories, and that category is then unique. *)
Theorem isValidCategory_decodes (s : string) :
  (isValidCategory s = true <-> exists c, categoryString c = s)
  /\ (forall c c', categoryString c = s -> categoryString c' = s -> c = c')
  /\ (forall c, isValidCategory (categoryString c) = true).
Proof.
  split; [apply isValidCategory_true|].
  split; [|apply isValidCategory_categoryString].
  intros c c' H H'. apply categoryString_inj. congruence.
Qed.

Lemma isValidCategory_decodes_witness : RoutesAndControllers = RoutesAndControllers.
Proof.
  apply (proj1 (proj2 (isValidCategory_decodes "routes-and-controllers")));
    reflexivity.
Defined.

Section FindFacts.
Context {A : Type} (key : A -> string).

Lemma find_Some (l : list A) (i : string) (x : A) :
  List.find (fun y => Js.strictEq (key y) i) l = Some x -> x ∈ l /\ key x = i.
Proof.
  intros [Hin Hk]%List.find_some. split; [by apply list_elem_of_In|].
  by apply strictEq_true.
Qed.

Lemma find_None (l : list A) (i : string) :
  List.find (fun y => Js.strictEq (key y) i) l = None <-> i ∉ map key l.
Proof.
  induction l as [|y l IH]; simpl.
  - split; [intros _; apply not_elem_of_nil|done].
  - destruct (Js.strictEq (key y) i) eqn:E.
    + apply strictEq_true in E as <-. split; [done|].
      intros H. exfalso. apply H. apply elem_of_cons. by left.
    + apply strictEq_false in E. rewrite IH, not_elem_of_cons.
      split; [intros ?; split; [congruence|done] | by intros [_ ?]].
Qed.

Lemma find_NoDup (l : list A) (x : A) :
  NoDup (map key l) -> x ∈ l ->
  List.find (fun y => Js.strictEq (key y) (key x)) l = Some x.
Proof.
  induction l as [|y l IH]; simpl; intros Hnd Hin.
  - by apply elem_of_nil in Hin.
  - apply NoDup_cons in Hnd as [Hy Hnd].
    apply elem_of_cons in Hin as [->|Hin].
    + by rewrite (proj2 (strictEq_true (key y) (key y)) eq_refl).
    + destruct (Js.strictEq (key y) (key x)) eqn:E; [|by apply IH].
      apply strictEq_true in E. exfalso. apply Hy. rewrite E.
      apply list_elem_of_fmap. by exists x.
Qed.

End FindFacts.

(** X13.  [findRuleById] answers a rule of the table that carries the id,
    and nothing exactly when no rule carries it; when the ids of the table
    are distinct, looking up the id of any rule of the table gives that
    rule back. *)
Theorem findRuleById_lookup (RULES : list ArchitectureRule) (i : string) :
  (forall r, findRuleById RULES i = Some r -> r ∈ RULES /\ id r = i)
  /\ (findRuleById RULES i = None <-> i ∉ map id RULES)
  /\ (NoDup (map id RULES) ->
      forall r, r ∈ RULES -> findRuleById RULES (id r) = Some r).
Proof.
  split; [intros r; apply (find_Some id)|].
  split; [apply (find_None id)|].
  intros Hnd r Hr. by apply (find_NoDup id).
Qed.

Lemma findRuleById_lookup_witness :
  findRuleById [capitalId; thinRoutes; godModuleAsRule] (id thinRoutes)
  = Some thinRoutes.
Proof.
  apply (proj2 (proj2 (findRuleById_lookup
                         [capitalId; thinRoutes; godModuleAsRule] ""))).
  - apply (bool_decide_unpack _). by vm_compute.
  - set_solver.
Defined.

(** X14.  [findAntiPatternById] answers an anti-pattern of the table that
    carries the id, and nothing exactly when none carries it; when the ids
    of the table are distinct, looking up the id of any anti-pattern of the
    table gives it back. *)
Theorem findAntiPatternById_lookup (ANTI_PATTERNS : list AntiPattern) (i : string) :
  (forall ap, findAntiPatternById ANTI_PATTERNS i = Some ap ->
     ap ∈ ANTI_PATTERNS /\ AP.id ap = i)
  /\ (findAntiPatternById ANTI_PATTERNS i = None <-> i ∉ map AP.id ANTI_PATTERNS)
  /\ (NoDup (map AP.id ANTI_PATTERNS) ->
      forall ap, ap ∈ ANTI_PATTERNS ->
        findAntiPatternById ANTI_PATTERNS (AP.id ap) = Some ap).
Proof.
  split; [intros ap; apply (find_Some AP.id)|].
  split; [apply (find_None AP.id)|].
  intros Hnd ap Hap. by apply (find_NoDup AP.id).
Qed.

Lemma findAntiPatternById_lookup_witness :
  findAntiPatternById [godModule] (AP.id godModule) = Some godModule.
Proof.
  apply (proj2 (proj2 (findAntiPatternById_lookup [godModule] ""))).
  - apply (bool_decide_unpack _). by vm_compute.
  - set_solver.
Defined.

Lemma filterByCategory_filter (RULES : list ArchitectureRule) (c : RuleCategory) :
  filterByCategory RULES (categoryString c)
  = filter (fun r => category r = c) RULES.
Proof.
  unfold filterByCategory. induction RULES as [|r RULES IH]; [done|].
  cbn [List.filter]. rewrite filter_cons, IH.
  destruct (decide (category r = c)) as [->|Hne].
  - by rewrite (proj2 (strictEq_true _ _) eq_refl).
  - assert (Js.strictEq (categoryString (category r)) (categoryString c) = false)
      as -> ; [|done].
    apply strictEq_false. intros H. by apply Hne, categoryString_inj.
Qed.

Lemma filterByCategory_invalid (RULES : list ArchitectureRule) (s : string) :
  isValidCategory s = false -> filterByCategory RULES s = [].
Proof.
  intros Hs. unfold filterByCategory.
  induction RULES as [|r RULES IH]; [done|]. cbn [List.filter].
  destruct (Js.strictEq (categoryString (category r)) s) eqn:E; [|exact IH].
  apply strictEq_true in E.
  assert (isValidCategory s = true) by (apply isValidCategory_true; eauto).
  congruence.
Qed.

(** X15.  [filterByCategory] with the string of a category keeps exactly
    the rules of that category, in table order; with a string that is no
    category it keeps none. *)
Theorem filterByCategory_keeps_the_category (RULES : list ArchitectureRule)
    (c : RuleCategory) (s : string) :
  filterByCategory RULES (categoryString c) = filter (fun r => category r = c) RULES
  /\ sublist (filterByCategory RULES s) RULES
  /\ (isValidCategory s = false -> filterByCategory RULES s = []).
Proof.
  split; [apply filterByCategory_filter|].
  split; [|apply filterByCategory_invalid].
  unfold filterByCategory. induction RULES as [|r RULES IH]; [done|].
  cbn [List.filter]. destruct (Js.strictEq _ _); by constructor.
Qed.

Lemma filterByCategory_keeps_the_category_witness :
  filterByCategory [thinRoutes; godModuleAsRule] "routes" = [].
Proof.
  apply (proj2 (proj2 (filterByCategory_keeps_the_category
                         [thinRoutes; godModuleAsRule] Migration "routes"))).
  reflexivity.
Defined.

(** ** Maps in insertion order *)

Section OrderedMapFacts.
Context {K V : Type} `{EqDecision K}.
Implicit Types (m : list (K * V)) (k : K) (v : V).

Lemma mapGet_mapSet_eq m k v : Js.mapGet k (Js.mapSet k v m) = Some v.
Proof.
  induction m as [|[k' v'] m IH]; cbn [Js.mapGet Js.mapSet map fst].
  - by rewrite decide_True.
  - destruct (decide (k' = k)) as [->|Hne]; cbn [Js.mapGet Js.mapSet map fst].
    + by rewrite decide_True.
    + by rewrite decide_False.
Qed.

Lemma mapGet_mapSet_ne m k k0 v :
  k0 <> k -> Js.mapGet k0 (Js.mapSet k v m) = Js.mapGet k0 m.
Proof.
  intros Hne. induction m as [|[k' v'] m IH]; cbn [Js.mapGet Js.mapSet map fst].
  - by rewrite decide_False by congruence.
  - destruct (decide (k' = k)) as [->|Hk]; cbn [Js.mapGet Js.mapSet map fst].
    + by rewrite !decide_False by congruence.
    + destruct (decide (k' = k0)); [done|exact IH].
Qed.

Lemma mapGet_None m k : Js.mapGet k m = None <-> k ∉ map fst m.
Proof.
  induction m as [|[k' v'] m IH]; cbn [Js.mapGet Js.mapSet map fst].
  - split; [intros _; apply not_elem_of_nil|done].
  - rewrite not_elem_of_cons. destruct (decide (k' = k)) as [->|Hne].
    + split; [done|]. by intros [? _].
    + rewrite IH. split; [intros ?; split; [congruence|done] | by intros [_ ?]].
Qed.

Lemma keys_mapSet m k v :
  map fst (Js.mapSet k v m)
  = map fst m ++ (if decide (k ∈ map fst m) then [] else [k]).
Proof.
  induction m as [|[k' v'] m IH]; cbn [Js.mapGet Js.mapSet map fst].
  - rewrite decide_False; [done|apply not_elem_of_nil].
  - destruct (decide (k' = k)) as [->|Hne]; cbn [Js.mapGet Js.mapSet map fst].
    + rewrite decide_True by (apply elem_of_cons; by left).
      by rewrite app_nil_r.
    + rewrite IH. f_equal.
      destruct (decide (k ∈ map fst m)) as [Hin|Hin].
      * rewrite decide_True; [done|]. apply elem_of_cons. by right.
      * rewrite decide_False; [done|]. rewrite not_elem_of_cons.
        split; [congruence|done].
Qed.

Lemma keys_mapSet_NoDup m k v :
  NoDup (map fst m) -> NoDup (map fst (Js.mapSet k v m)).
Proof.
  intros Hnd. rewrite keys_mapSet.
  destruct (decide (k ∈ map fst m)); [by rewrite app_nil_r|].
  apply NoDup_app. split; [done|]. split; [|apply NoDup_singleton].
  intros x Hx ->%list_elem_of_singleton. done.
Qed.

End OrderedMapFacts.

(** ** The grouped catalog *)

Lemma groupByCategory_snoc (rules : list ArchitectureRule) (r : ArchitectureRule) :
  groupByCategory (rules ++ [r])
  = Js.mapSet (category r)
      (default [] (Js.mapGet (category r) (groupByCategory rules)) ++ [r])
      (groupByCategory rules).
Proof. unfold groupByCategory. by rewrite fold_left_app. Qed.

Lemma groupByCategory_get (rules : list ArchitectureRule) (c : RuleCategory) :
  Js.mapGet c (groupByCategory rules)
  = match filter (fun r => category r = c) rules with
    | [] => None
    | group => Some group
    end.
Proof.
  induction rules as [|r rules IH] using rev_ind; [done|].
  rewrite groupByCategory_snoc, filter_app, filter_cons, filter_nil.
  destruct (decide (category r = c)) as [<-|Hne].
  - rewrite mapGet_mapSet_eq, IH.
    destruct (filter _ rules) as [|x l]; simpl; [done|].
    by destruct (l ++ [r]) eqn:E; [destruct l; discriminate E|].
  - rewrite mapGet_mapSet_ne by congruence. by rewrite app_nil_r.
Qed.

Lemma groupByCategory_NoDup (rules : list ArchitectureRule) :
  NoDup (map fst (groupByCategory rules)).
Proof.
  induction rules as [|r rules IH] using rev_ind; [constructor|].
  rewrite groupByCategory_snoc. by apply keys_mapSet_NoDup.
Qed.

(** X16.  [groupByCategory] holds each category at most once; the group of
    a category is the rules of that category in input order, and a category
    without a rule has no group; the categories stand in the order in which
    each first occurs, a further rule either joining its group in place or
    opening a new group at the end. *)
Theorem groupByCategory_groups (rules : list ArchitectureRule) :
  NoDup (map fst (groupByCategory rules))
  /\ (forall c,
        Js.mapGet c (groupByCategory rules)
        = match filter (fun r => category r = c) rules with
          | [] => None
          | group => Some group
          end)
  /\ (forall r,
        map fst (groupByCategory (rules ++ [r]))
        = map fst (groupByCategory rules)
          ++ (if decide (category r ∈ map fst (groupByCategory rules))
              then [] else [category r])).
Proof.
  split; [apply groupByCategory_NoDup|].
  split; [intros c; apply groupByCategory_get|].
  intros r. rewrite groupByCategory_snoc. apply keys_mapSet.
Qed.

Lemma CATEGORY_LABELS_inj (c c' : RuleCategory) :
  CATEGORY_LABELS c = CATEGORY_LABELS c' -> c = c'.
Proof. destruct c, c'; intros H; try reflexivity; discriminate H. Qed.

Lemma mapGet_relabel {V W} (f : V -> W) (m : list (RuleCategory * V))
    (c : RuleCategory) :
  Js.mapGet (CATEGORY_LABELS c) (map (fun '(k, v) => (CATEGORY_LABELS k, f v)) m)
  = f <$> Js.mapGet c m.
Proof.
  induction m as [|[k v] m IH]; [done|]. cbn [Js.mapGet Js.mapSet map].
  destruct (decide (k = c)) as [->|Hne].
  - by rewrite decide_True.
  - rewrite decide_False; [exact IH|].
    intros H. by apply Hne, CATEGORY_LABELS_inj.
Qed.

Lemma mapSet_relabel {V W} (f : V -> W) (m : list (RuleCategory * V))
    (c : RuleCategory) (v : V) :
  Js.mapSet (CATEGORY_LABELS c) (f v)
    (map (fun '(k, v) => (CATEGORY_LABELS k, f v)) m)
  = map (fun '(k, v) => (CATEGORY_LABELS k, f v)) (Js.mapSet c v m).
Proof.
  induction m as [|[k v'] m IH]; [done|]. cbn [Js.mapGet Js.mapSet map].
  destruct (decide (k = c)) as [->|Hne].
  - by rewrite decide_True.
  - rewrite decide_False; [by rewrite IH|].
    intros H. by apply Hne, CATEGORY_LABELS_inj.
Qed.

(** X17.  The catalog resource and the grouped list agree: the object
    [buildGroupedCatalog] builds has, in the same order, one key per group
    of [groupByCategory], the label of its category, holding the id and the
    name of the rules of the group in the same order. *)
Theorem buildGroupedCatalog_groupByCategory (RULES : list ArchitectureRule) :
  buildGroupedCatalog RULES
  = map (fun '(c, group) =>
           (CATEGORY_LABELS c, map (fun r => (id r, name r)) group))
      (groupByCategory RULES).
Proof.
  induction RULES as [|r RULES IH] using rev_ind; [done|].
  rewrite groupByCategory_snoc. unfold buildGroupedCatalog in *.
  rewrite fold_left_app. cbn [fold_left]. rewrite IH.
  rewrite (mapGet_relabel (map (fun r => (id r, name r)))).
  rewrite <- (mapSet_relabel (map (fun r => (id r, name r)))).
  f_equal. rewrite map_app.
  by destruct (Js.mapGet (category r) (groupByCategory RULES)).
Qed.

(** ** The list-rules tool *)




(** ** More on truncated descriptions *)

Lemma length_trimEnd (s : string) :
  (String.length (Js.trimEnd s) <= String.length s)%nat.
Proof.
  induction s as [|c s IH]; simpl; [lia|].
  destruct (Js.trimEnd s) as [|d r]; simpl in *.
  - destruct (Js.isWhiteSpace c); simpl; lia.
  - lia.
Qed.

Lemma length_substring_le (s : string) (n : nat) :
  (String.length (String.substring 0 n s) <= n)%nat.
Proof.
  revert n. induction s as [|c s IH]; intros [|n]; simpl; try lia.
  specialize (IH n). lia.
Qed.

Lemma trimEnd_split (s : string) :
  exists ws, s = Js.trimEnd s +:+ ws /\ allWhiteSpace ws = true.
Proof.
  induction s as [|c s (ws & Hs & Hws)]; [by exists ""|]. simpl.
  destruct (Js.trimEnd s) as [|d r] eqn:E.
  - rewrite append_nil_l in Hs. subst ws.
    destruct (Js.isWhiteSpace c) eqn:Hc.
    + exists (String c s). split; [done|]. simpl. by rewrite Hc, Hws.
    + exists s. by rewrite append_cons, append_nil_l.
  - exists ws. split; [|done]. rewrite append_cons. by rewrite <- Hs.
Qed.

Lemma substring_split (s : string) (n : nat) :
  (n < String.length s)%nat ->
  exists rest, s = String.substring 0 n s +:+ rest /\ rest <> "".
Proof.
  revert n. induction s as [|c s IH]; intros n Hn; simpl in Hn; [lia|].
  destruct n as [|n].
  - exists (String c s). by split.
  - destruct (IH n ltac:(lia)) as (rest & Hs & Hrest).
    exists rest. split; [|done]. simpl. rewrite append_cons. by rewrite <- Hs.
Qed.

(** X19.  For a limit that is not negative the result has at most limit + 3
    units, so at most 103 with the limit left out.  A description longer
    than the limit comes back as a part of itself that starts at its first
    unit, does not end in white space and leaves some of the description
    out, followed by the three dots. *)
Theorem truncateDescription_shape (d : string) (limit : Z) :
  0 <= limit ->
  (String.length (truncateDescription d (Some limit)) <= Z.to_nat limit + 3)%nat
  /\ (String.length (truncateDescription d None) <= 103)%nat
  /\ (limit < Z.of_nat (String.length d) ->
      exists p rest,
        truncateDescription d (Some limit) = p +:+ "..."
        /\ d = p +:+ rest /\ rest <> ""
        /\ Js.trimEnd p = p
        /\ (String.length p <= Z.to_nat limit)%nat).
Proof.
  intros Hlimit.
  assert (forall n, 0 <= n ->
            (String.length (truncateDescription d (Some n)) <= Z.to_nat n + 3)%nat)
    as Hlen.
  { intros n Hn.
    destruct (decide (Z.of_nat (String.length d) <= n)) as [Hle|Hgt].
    - rewrite truncateDescription_within by done. lia.
    - rewrite truncateDescription_over by lia. rewrite length_append.
      pose proof (length_trimEnd (String.substring 0 (Z.to_nat n) d)).
      pose proof (length_substring_le d (Z.to_nat n)).
      change (String.length "...") with 3%nat. lia. }
  split; [by apply Hlen|]. split; [apply (Hlen 100); lia|].
  intros Hover. rewrite truncateDescription_over by lia.
  destruct (substring_split d (Z.to_nat limit) ltac:(lia)) as (rest & Hd & Hrest).
  destruct (trimEnd_split (String.substring 0 (Z.to_nat limit) d))
    as (ws & Hp & Hws).
  exists (Js.trimEnd (String.substring 0 (Z.to_nat limit) d)), (ws +:+ rest).
  split; [done|]. split.
  { rewrite <- append_assoc, <- Hp. exact Hd. }
  split.
  { intros H. apply Hrest. destruct ws; [by rewrite append_nil_l in H|].
    rewrite append_cons in H. discriminate H. }
  split; [apply trimEnd_idem|].
  pose proof (length_trimEnd (String.substring 0 (Z.to_nat limit) d)).
  pose proof (length_substring_le d (Z.to_nat limit)). lia.
Qed.

Lemma truncateDescription_shape_witness :
  (String.length (truncateDescription (description thinRoutes) (Some 20%Z)) <= 23)%nat.
Proof.
  apply (proj1 (truncateDescription_shape (description thinRoutes) 20 ltac:(lia))).
Defined.

(** ** More on result formatting *)

Lemma join_head (sep h : string) (tail : list string) :
  exists rest, Js.join sep (h :: tail) = h +:+ rest.
Proof.
  destruct tail as [|x tail].
  - exists "". simpl. by rewrite append_nil_r.
  - by exists (sep +:+ Js.join sep (x :: tail)).
Qed.

Lemma formatRuleAsMarkdown_heading (r : ArchitectureRule) :
  exists rest, formatRuleAsMarkdown r = "## " +:+ name r +:+ rest.
Proof.
  unfold formatRuleAsMarkdown. cbv zeta.
  destruct (0 <? length (examples r))%nat, (0 <? length (cleanCodeRefs r))%nat,
    (truthy (source r)); cbn [app];
    match goal with
    | |- exists rest, Js.join ?sep (?h :: ?t) = _ =>
        destruct (join_head sep h t) as [rest ->]
    end; exists rest; apply append_assoc.
Qed.

Lemma formatAntiPatternAsMarkdown_heading (ap : AntiPattern) :
  exists rest,
    formatAntiPatternAsMarkdown ap
    = "## " +:+ WARNING_SIGN +:+ " Anti-Pattern: " +:+ AP.name ap +:+ rest.
Proof.
  unfold formatAntiPatternAsMarkdown. cbv zeta.
  destruct (0 <? length (AP.examples ap))%nat,
    (0 <? length (AP.cleanCodeRefs ap))%nat; cbn [app];
    match goal with
    | |- exists rest, Js.join ?sep (?h :: ?t) = _ =>
        destruct (join_head sep h t) as [rest ->]
    end; exists rest; by rewrite !append_assoc.
Qed.

Lemma specFormat_head (t : TaggedResult) (l : list TaggedResult)
    (rules antiPatterns : list ArchitectureRule) (emptyMessage header : string)
    (n : Z) :
  tagAll rules antiPatterns = t :: l -> 1 <= n ->
  exists rest,
    specFormat rules antiPatterns emptyMessage header n
    = {| content := [renderDetailed t +:+ rest] |}.
Proof.
  intros Ht Hn. unfold specFormat. rewrite Ht.
  destruct (Z.to_nat n) as [|k] eqn:E; [lia|]. cbn [take map app].
  destruct (join_head SEPARATOR (renderDetailed t)
              (map renderDetailed (take 2 (take k l))
               ++ match drop 3 (t :: take k l) with
                  | [] => []
                  | _ :: _ => [renderSummary header (drop 3 (t :: take k l))]
                  end)) as [rest Hrest].
  exists rest. by rewrite <- Hrest.
Qed.

Lemma formatSearchResults_rule_heading
    (r : ArchitectureRule) (rules antiPatterns : list ArchitectureRule)
    (options : Options) :
  1 <= default MAX_TOTAL_RESULTS (maxTotal options) ->
  exists rest,
    formatSearchResults (r :: rules) antiPatterns options
    = {| content := ["## " +:+ name r +:+ rest] |}.
Proof.
  intros Hn. rewrite formatSearchResults_specFormat by lia.
  destruct (specFormat_head {| type := TypeRule; item := r |}
              (tagAll rules antiPatterns) (r :: rules) antiPatterns
              (emptyMessage options) (remainingHeader options)
              (default MAX_TOTAL_RESULTS (maxTotal options)) eq_refl Hn)
    as [rest ->].
  unfold renderDetailed. cbn [type item].
  destruct (formatRuleAsMarkdown_heading r) as [rest' ->].
  exists (rest' +:+ rest). by rewrite !append_assoc.
Qed.

Lemma formatSearchResults_antiPattern_heading
    (r : ArchitectureRule) (antiPatterns : list ArchitectureRule)
    (options : Options) :
  1 <= default MAX_TOTAL_RESULTS (maxTotal options) ->
  exists rest,
    formatSearchResults [] (r :: antiPatterns) options
    = {| content :=
           ["## " +:+ WARNING_SIGN +:+ " Anti-Pattern: " +:+ name r +:+ rest] |}.
Proof.
  intros Hn. rewrite formatSearchResults_specFormat by lia.
  destruct (specFormat_head {| type := TypeAntiPattern; item := r |}
              (tagAll [] antiPatterns) [] (r :: antiPatterns)
              (emptyMessage options) (remainingHeader options)
              (default MAX_TOTAL_RESULTS (maxTotal options)) eq_refl Hn)
    as [rest ->].
  unfold renderDetailed. cbn [type item].
  destruct (formatAntiPatternAsMarkdown_heading (asAntiPattern r)) as [rest' ->].
  exists (rest' +:+ rest). cbn [asAntiPattern AP.name]. by rewrite !append_assoc.
Qed.

(** X20.  When a rule is ranked and the maximum is at least 1, the text
    opens with the heading of the first ranked rule, two hash signs and its
    name; when no rule is ranked but an anti-pattern is, it opens with the
    anti-pattern heading of the first ranked anti-pattern. *)
Theorem formatSearchResults_opens_with_top
    (r : ArchitectureRule) (rules antiPatterns : list ArchitectureRule)
    (options : Options) :
  (forall n, maxTotal options = Some n -> 1 <= n) ->
  (exists rest,
     formatSearchResults (r :: rules) antiPatterns options
     = {| content := ["## " +:+ name r +:+ rest] |})
  /\ (exists rest,
        formatSearchResults [] (r :: antiPatterns) options
        = {| content :=
               ["## " +:+ WARNING_SIGN +:+ " Anti-Pattern: " +:+ name r +:+ rest] |}).
Proof.
  intros Hmax.
  assert (1 <= default MAX_TOTAL_RESULTS (maxTotal options)) as Hn.
  { destruct (maxTotal options) as [n|]; simpl; [by apply Hmax|].
    unfold MAX_TOTAL_RESULTS. lia. }
  split.
  - by apply formatSearchResults_rule_heading.
  - by apply formatSearchResults_antiPattern_heading.
Qed.

Lemma formatSearchResults_opens_with_top_witness :
  exists rest,
    formatSearchResults [thinRoutes] [godModuleAsRule]
      {| emptyMessage := "none"; remainingHeader := "Other matches";
         maxTotal := Some 2 |}
    = {| content := ["## " +:+ name thinRoutes +:+ rest] |}.
Proof.
  apply (proj1 (formatSearchResults_opens_with_top thinRoutes [] [godModuleAsRule]
                  {| emptyMessage := "none"; remainingHeader := "Other matches";
                     maxTotal := Some 2 |}
                  ltac:(simpl; intros n [= <-]; lia))).
Defined.

(** X21.  Rules come first and the cut is at the maximum: when at least as
    many rules are ranked as the maximum allows, no anti-pattern is shown,
    the text is the one the rules alone give. *)
Theorem formatSearchResults_rules_crowd_out
    (rules antiPatterns : list ArchitectureRule) (options : Options) :
  (forall n, maxTotal options = Some n -> 0 <= n) ->
  (Z.to_nat (default 10%Z (maxTotal options)) <= length rules)%nat ->
  formatSearchResults rules antiPatterns options
  = formatSearchResults rules [] options.
Proof.
  intros Hmax Hlen.
  assert (0 <= default MAX_TOTAL_RESULTS (maxTotal options)) as Hn.
  { destruct (maxTotal options) as [n|]; simpl; [by apply Hmax|].
    unfold MAX_TOTAL_RESULTS. lia. }
  rewrite !formatSearchResults_specFormat by done.
  unfold specFormat, tagAll. cbn [map]. rewrite app_nil_r.
  rewrite take_app_le; [done|]. by rewrite length_map.
Qed.

Lemma formatSearchResults_rules_crowd_out_witness :
  formatSearchResults [thinRoutes; capitalId] [godModuleAsRule]
    {| emptyMessage := "none"; remainingHeader := "Other matches";
       maxTotal := Some 2 |}
  = formatSearchResults [thinRoutes; capitalId] []
      {| emptyMessage := "none"; remainingHeader := "Other matches";
         maxTotal := Some 2 |}.
Proof.
  apply formatSearchResults_rules_crowd_out.
  - simpl. intros n [= <-]. lia.
  - simpl. lia.
Defined.

(** ** Searching for an id *)

(** X22.  A rule of the table is always found by its id: for a query whose
    lowercased, trimmed form is the id of a rule of the table, that rule
    scores 100 and is ranked, and the answer of search-rule opens with the
    heading of a rule of the table that scores at least 100. *)
Theorem searchRule_finds_id (RULES : list ArchitectureRule)
    (ANTI_PATTERNS : list AntiPattern) (r : ArchitectureRule) (query : string) :
  r ∈ RULES -> Js.trim (Js.toLowerCase query) = id r ->
  scoreRuleByQuery r query = 100
  /\ r ∈ rankRules RULES (fun rule => scoreRuleByQuery rule query)
  /\ exists top rest,
       top ∈ RULES /\ 100 <= scoreRuleByQuery top query
       /\ searchRule RULES ANTI_PATTERNS query
          = {| content := ["## " +:+ name top +:+ rest] |}.
Proof.
  intros Hr Hq.
  assert (scoreRuleByQuery r query = 100) as Hscore.
  { unfold scoreRuleByQuery. rewrite Hq.
    by rewrite (proj2 (strictEq_true (id r) (id r)) eq_refl). }
  assert (r ∈ rankRules RULES (fun rule => scoreRuleByQuery rule query)) as Hranked.
  { rewrite rankRules_Permutation. apply list_elem_of_filter. split; [lia|done]. }
  split; [done|]. split; [done|].
  pose proof (rankRules_descending (fun rule => scoreRuleByQuery rule query) RULES)
    as Hsorted.
  pose proof (rankRules_Permutation (fun rule => scoreRuleByQuery rule query) RULES)
    as Hperm.
  unfold searchRule.
  destruct (rankRules RULES (fun rule => scoreRuleByQuery rule query))
    as [|top ranked] eqn:E; [by apply elem_of_nil in Hranked|].
  destruct (formatSearchResults_rule_heading top ranked
              (rankRules (antiPatternsAsRules ANTI_PATTERNS)
                 (fun ap => scoreRuleByQuery ap query))
              {| emptyMessage :=
                   "No rules or anti-patterns found for " +:+ Js.DQUOTE +:+ query
                     +:+ Js.DQUOTE +:+ ".";
                 remainingHeader := "Other matches";
                 maxTotal := Some MAX_TOTAL_RESULTS |})
    as [rest Hrest]; [simpl; unfold MAX_TOTAL_RESULTS; lia|].
  exists top, rest. split.
  { assert (top ∈ filter (fun x => 0 < scoreRuleByQuery x query) RULES) as Hin
      by (rewrite <- Hperm; apply elem_of_cons; by left).
    by apply list_elem_of_filter in Hin as [_ ?]. }
  split; [|exact Hrest].
  apply StronglySorted_inv in Hsorted as [_ Htop].
  apply elem_of_cons in Hranked as [<-|Hin]; [lia|].
  rewrite Forall_forall in Htop. specialize (Htop r Hin). lia.
Qed.

Lemma searchRule_finds_id_witness :
  scoreRuleByQuery thinRoutes " THIN-routes" = 100.
Proof.
  apply (proj1 (searchRule_finds_id [capitalId; thinRoutes] [godModule]
                  thinRoutes " THIN-routes"
                  ltac:(set_solver) ltac:(reflexivity))).
Defined.

(** ** Import checks *)

Section ImportFacts.

Lemma split_segment_sep (x s : string) :
  isSegment x = true ->
  Js.split "/"%char (x +:+ String "/"%char s) = x :: Js.split "/"%char s.
Proof.
  induction x as [|d x IH]; intros Hx.
  - rewrite append_nil_l. reflexivity.
  - unfold isSegment in Hx. simpl in Hx. apply andb_prop in Hx as [Hd Hx].
    rewrite append_cons. cbn [Js.split].
    apply negb_true_iff in Hd. rewrite Hd. by rewrite IH.
Qed.

Lemma split_segment (x : string) :
  isSegment x = true -> Js.split "/"%char x = [x].
Proof.
  induction x as [|d x IH]; intros Hx; [done|].
  unfold isSegment in Hx. simpl in Hx. apply andb_prop in Hx as [Hd Hx].
  cbn [Js.split]. apply negb_true_iff in Hd. rewrite Hd. by rewrite IH.
Qed.

(** Splitting at the slashes undoes joining segments with slashes. *)
Lemma split_join (x : string) (segs : list string) :
  Forall (fun s => isSegment s = true) (x :: segs) ->
  Js.split "/"%char (Js.join "/" (x :: segs)) = x :: segs.
Proof.
  revert x. induction segs as [|y segs IH]; intros x Hall.
  - apply split_segment. by apply Forall_cons in Hall as [? _].
  - apply Forall_cons in Hall as [Hx Hall]. rewrite join_cons.
    change (x +:+ "/" +:+ Js.join "/" (y :: segs))
      with (x +:+ String "/"%char (Js.join "/" (y :: segs))).
    rewrite split_segment_sep by done. by rewrite IH.
Qed.

Lemma indexOfFrom_found (pre rest : list string) (m : string) (i : Z) :
  m ∉ pre -> Js.indexOfFrom (pre ++ m :: rest) m i = i + Z.of_nat (length pre).
Proof.
  revert i. induction pre as [|y pre IH]; intros i Hm; cbn [app Js.indexOfFrom].
  - rewrite (proj2 (strictEq_true m m) eq_refl). simpl. lia.
  - apply not_elem_of_cons in Hm as [Hy Hm].
    rewrite (proj2 (strictEq_false y m)) by congruence.
    rewrite IH by done. cbn [length]. lia.
Qed.

Lemma indexOfFrom_absent (a : list string) (m : string) (i : Z) :
  m ∉ a -> Js.indexOfFrom a m i = -1.
Proof.
  revert i. induction a as [|y a IH]; intros i Hm; [done|].
  apply not_elem_of_cons in Hm as [Hy Hm]. cbn [Js.indexOfFrom].
  rewrite (proj2 (strictEq_false y m)) by congruence. by apply IH.
Qed.

Lemma sliceFrom_after (pre rest : list string) (m : string) :
  Js.sliceFrom (pre ++ m :: rest) (Z.of_nat (length pre) + 1) = rest.
Proof.
  unfold Js.sliceFrom. rewrite slice_suffix by lia.
  replace (Z.to_nat (Z.of_nat (length pre) + 1)) with (length pre + 1)%nat by lia.
  rewrite <- drop_drop, drop_app_length. reflexivity.
Qed.

(** X23.  An import path counts as internal to a module when, after the
    first segment that is the module's name, something other than nothing,
    the empty segment, index, index.ts or index.js follows; any path that
    goes two or more segments below the module counts as internal, and a
    path without a segment of that name never does. *)
Theorem isInternalImport_segments (pre rest : list string) (m importPath : string) :
  (Forall (fun s => isSegment s = true) (pre ++ m :: rest) -> m ∉ pre ->
   isInternalImport (Js.join "/" (pre ++ m :: rest)) m
   = match rest with
     | [] => false
     | [x] => negb (Js.strictEq x "index.js" || Js.strictEq x "index.ts"
                    || Js.strictEq x "index" || Js.strictEq x "")
     | _ => true
     end)
  /\ (m ∉ Js.split "/"%char importPath -> isInternalImport importPath m = false).
Proof.
  split.
  - intros Hsegs Hm. unfold isInternalImport. cbv zeta.
    assert (Js.split "/"%char (Js.join "/" (pre ++ m :: rest)) = pre ++ m :: rest)
      as ->.
    { destruct pre as [|p pre]; cbn [app] in *; by apply split_join. }
    unfold Js.indexOf. rewrite indexOfFrom_found by done.
    replace (0 + Z.of_nat (length pre) =? -1) with false
      by (symmetry; apply Z.eqb_neq; lia).
    rewrite Z.add_0_l, sliceFrom_after.
    destruct rest as [|x [|y rest]]; [done| |done].
    cbn [length Nat.eqb nth andb].
    by destruct (Js.strictEq x "index.js"), (Js.strictEq x "index.ts"),
      (Js.strictEq x "index"), (Js.strictEq x "").
  - intros Hm. unfold isInternalImport, Js.indexOf. cbv zeta.
    by rewrite indexOfFrom_absent.
Qed.

End ImportFacts.

Lemma isInternalImport_segments_witness :
  isInternalImport "../orders/order.service.js" "orders" = true
  /\ isInternalImport "../orders/index.js" "orders" = false
  /\ isInternalImport "../payments/index.js" "orders" = false.
Proof.
  split; [|split].
  - apply (proj1 (isInternalImport_segments [".."] ["order.service.js"]
                    "orders" "")).
    + repeat constructor.
    + intros H. apply list_elem_of_singleton in H. discriminate H.
  - apply (proj1 (isInternalImport_segments [".."] ["index.js"] "orders" "")).
    + repeat constructor.
    + intros H. apply list_elem_of_singleton in H. discriminate H.
  - apply (proj2 (isInternalImport_segments [] [] "orders" "../payments/index.js")).
    vm_compute. intros H.
    repeat (apply elem_of_cons in H as [H|H]; [discriminate H|]).
    by apply elem_of_nil in H.
Defined.

(** ** Module names and the names derived from them *)

Section SplitFacts.
Variable sep : ascii.

Lemma split_not_nil (s : string) : Js.split sep s <> [].
Proof.
  destruct s as [|c r]; [done|]. cbn [Js.split].
  destruct (Ascii.eqb c sep); [done|]. by destruct (Js.split sep r).
Qed.

(** Joining the pieces with the separator gives the string back. *)
Lemma join_split (s : string) :
  Js.join (String sep EmptyString) (Js.split sep s) = s.
Proof.
  induction s as [|c r IH]; [done|]. cbn [Js.split].
  pose proof (split_not_nil r) as Hne.
  destruct (Ascii.eqb c sep) eqn:E.
  - apply Ascii.eqb_eq in E as ->.
    destruct (Js.split sep r) as [|x l]; [done|].
    rewrite join_cons, IH. reflexivity.
  - destruct (Js.split sep r) as [|x l]; [done|].
    destruct l as [|y l].
    + simpl in *. by rewrite IH.
    + rewrite join_cons in *. rewrite append_cons. by rewrite IH.
Qed.

Lemma split_piece_sep (x s : string) :
  allUnits (fun c => negb (Ascii.eqb c sep)) x = true ->
  Js.split sep (x +:+ String sep s) = x :: Js.split sep s.
Proof.
  induction x as [|d x IH]; intros Hx.
  - rewrite append_nil_l. cbn [Js.split]. by rewrite Ascii.eqb_refl.
  - simpl in Hx. apply andb_prop in Hx as [Hd Hx].
    rewrite append_cons. cbn [Js.split].
    apply negb_true_iff in Hd. rewrite Hd. by rewrite IH.
Qed.

Lemma split_piece (x : string) :
  allUnits (fun c => negb (Ascii.eqb c sep)) x = true -> Js.split sep x = [x].
Proof.
  induction x as [|d x IH]; intros Hx; [done|].
  simpl in Hx. apply andb_prop in Hx as [Hd Hx].
  cbn [Js.split]. apply negb_true_iff in Hd. rewrite Hd. by rewrite IH.
Qed.

Lemma split_join_pieces (x : string) (l : list string) :
  Forall (fun s => allUnits (fun c => negb (Ascii.eqb c sep)) s = true) (x :: l) ->
  Js.split sep (Js.join (String sep EmptyString) (x :: l)) = x :: l.
Proof.
  revert x. induction l as [|y l IH]; intros x Hall.
  - apply split_piece. by apply Forall_cons in Hall as [? _].
  - apply Forall_cons in Hall as [Hx Hall]. rewrite join_cons.
    rewrite append_cons, append_nil_l.
    rewrite split_piece_sep by done. by rewrite IH.
Qed.

End SplitFacts.

Section ModuleNameFacts.

Lemma allUnits_impl (P Q : ascii -> bool) (s : string) :
  (forall c, P c = true -> Q c = true) ->
  allUnits P s = true -> allUnits Q s = true.
Proof.
  intros HPQ. induction s as [|c s IH]; [done|]. simpl.
  intros [Hc Hs]%andb_prop. by rewrite (HPQ c Hc), IH.
Qed.

Lemma isNamePiece_inv (x : string) :
  isNamePiece x = true ->
  exists c r, x = String c r
              /\ (isLowerLetter c || isDigit c) = true
              /\ allUnits (fun c => isLowerLetter c || isDigit c) r = true.
Proof.
  unfold isNamePiece. destruct x as [|c r]; [done|]. simpl.
  intros [Hc Hr]%andb_prop. by exists c, r.
Qed.

Lemma isNamePiece_no_hyphen (x : string) :
  isNamePiece x = true ->
  allUnits (fun c => negb (Ascii.eqb c "-"%char)) x = true.
Proof.
  unfold isNamePiece. intros [_ Hx]%andb_prop.
  eapply allUnits_impl; [|exact Hx].
  intros c. by destruct c as [[] [] [] [] [] [] [] []].
Qed.

Lemma matchRest_units (x s : string) :
  allUnits (fun c => isLowerLetter c || isDigit c) x = true ->
  matchRest false (x +:+ s) = matchRest false s.
Proof.
  induction x as [|c x IH]; [done|]. simpl.
  intros [Hc Hx]%andb_prop. rewrite Hc. by apply IH.
Qed.

Lemma matchRest_piece (x s : string) :
  isNamePiece x = true -> matchRest true (x +:+ s) = matchRest false s.
Proof.
  intros (c & r & -> & Hc & Hr)%isNamePiece_inv.
  rewrite append_cons. cbn [matchRest]. rewrite Hc. by apply matchRest_units.
Qed.

Lemma matchRest_pieces (x : string) (l : list string) :
  Forall (fun s => isNamePiece s = true) (x :: l) ->
  matchRest true (Js.join "-" (x :: l)) = true.
Proof.
  revert x. induction l as [|y l IH]; intros x Hall.
  - apply Forall_cons in Hall as [Hx _]. simpl.
    rewrite <- (append_nil_r x). by rewrite matchRest_piece.
  - apply Forall_cons in Hall as [Hx Hall]. rewrite join_cons.
    rewrite matchRest_piece by done.
    change ("-" +:+ Js.join "-" (y :: l)) with (String "-"%char (Js.join "-" (y :: l))).
    cbn [matchRest]. by apply IH.
Qed.

(** What [matchRest] accepts splits at the hyphens into pieces of letters
    and digits, none empty but possibly the first, and not the first either
    after a hyphen. *)
Lemma matchRest_split (s : string) (b : bool) :
  matchRest b s = true ->
  exists h t,
    Js.split "-"%char s = h :: t
    /\ allUnits (fun c => isLowerLetter c || isDigit c) h = true
    /\ (b = true -> h <> "")
    /\ Forall (fun x => isNamePiece x = true) t.
Proof.
  revert b. induction s as [|c r IH]; intros b Hm.
  - destruct b; [done|]. exists "", []. by repeat split.
  - cbn [matchRest] in Hm.
    destruct (isLowerLetter c || isDigit c) eqn:Hc.
    + destruct (IH false Hm) as (h & t & Hs & Hh & _ & Ht).
      exists (String c h), t. cbn [Js.split].
      assert (Ascii.eqb c "-"%char = false) as ->
        by (clear -Hc; by destruct c as [[] [] [] [] [] [] [] []]).
      rewrite Hs. repeat split; try done. simpl. by rewrite Hc, Hh.
    + destruct (Ascii.eqb c "-"%char) eqn:Ec; [|done].
      destruct b; [done|]. simpl in Hm.
      destruct (IH true Hm) as (h & t & Hs & Hh & Hne & Ht).
      exists "", (h :: t). cbn [Js.split]. rewrite Ec, Hs.
      repeat split; try done. constructor; [|done].
      unfold isNamePiece. rewrite Hh, andb_true_r.
      apply negb_true_iff, String.eqb_neq. by apply Hne.
Qed.

Lemma MODULE_NAME_REGEX_split (s : string) :
  MODULE_NAME_REGEX_test s = true ->
  exists x l,
    Js.split "-"%char s = x :: l
    /\ Forall (fun p => isNamePiece p = true) (x :: l)
    /\ firstUnit isLowerLetter x = true.
Proof.
  destruct s as [|c r]; [done|]. cbn [MODULE_NAME_REGEX_test].
  intros [Hc Hm]%andb_prop.
  destruct (matchRest_split r false Hm) as (h & t & Hs & Hh & _ & Ht).
  exists (String c h), t. cbn [Js.split].
  assert (Ascii.eqb c "-"%char = false) as ->
    by (clear -Hc; by destruct c as [[] [] [] [] [] [] [] []]).
  rewrite Hs. split; [done|]. split; [|done].
  constructor; [|done]. unfold isNamePiece. simpl. by rewrite Hc, Hh.
Qed.

(** X24.  The names [MODULE_NAME_REGEX] accepts are exactly the kebab-case
    names: one or more pieces joined by single hyphens, each piece a
    non-empty run of small letters and digits, the first beginning with a
    letter. *)
Theorem MODULE_NAME_REGEX_kebab_case (s : string) :
  MODULE_NAME_REGEX_test s = true
  <-> exists x l,
        s = Js.join "-" (x :: l)
        /\ Forall (fun p => isNamePiece p = true) (x :: l)
        /\ firstUnit isLowerLetter x = true.
Proof.
  split.
  - intros (x & l & Hs & Hall & Hx)%MODULE_NAME_REGEX_split.
    exists x, l. split; [|done].
    rewrite <- Hs. symmetry. apply (join_split "-"%char).
  - intros (x & l & -> & Hall & Hx).
    destruct x as [|c r]; [done|]. simpl in Hx.
    pose proof Hall as [Hp Hl]%Forall_cons.
    apply isNamePiece_inv in Hp as (c' & r' & [= <- <-] & _ & Hr).
    destruct l as [|y l].
    + simpl. rewrite Hx. rewrite <- (append_nil_r r).
      by rewrite matchRest_units.
    + rewrite join_cons, append_cons. cbn [MODULE_NAME_REGEX_test].
      rewrite Hx, matchRest_units by done.
      change ("-" +:+ Js.join "-" (y :: l))
        with (String "-"%char (Js.join "-" (y :: l))).
      cbn [matchRest]. by apply matchRest_pieces.
Qed.

End ModuleNameFacts.

Section DerivedNameFacts.

Lemma upperUnit_name_unit (c : ascii) :
  (isLowerLetter c || isDigit c) = true ->
  Js.upperUnit c = Some (String (capitalOf c) EmptyString)
  /\ isAlnumUnit (capitalOf c) = true
  /\ Js.lowerUnit (capitalOf c) = c
  /\ Js.lowerUnit c = c
  /\ isAlnumUnit c = true.
Proof. by destruct c as [[] [] [] [] [] [] [] []]. Qed.

Lemma capitalOf_letter (c : ascii) :
  isLowerLetter c = true -> isUpperLetter (capitalOf c) = true.
Proof. by destruct c as [[] [] [] [] [] [] [] []]. Qed.

Lemma substring_all (r : string) : String.substring 0 (String.length r) r = r.
Proof. induction r as [|c r IH]; [done|]. simpl. by rewrite IH. Qed.

Lemma sliceStrFrom_tail (c : ascii) (r : string) :
  Js.sliceStrFrom (String c r) 1 = r.
Proof.
  unfold Js.sliceStrFrom, Js.sliceStr.
  rewrite !relIndex_nonneg by lia. cbn [String.length].
  rewrite Nat2Z.id, Nat.min_id.
  replace (Nat.min (Z.to_nat 1) (S (String.length r))) with 1%nat by lia.
  replace (S (String.length r) - 1)%nat with (String.length r) by lia.
  change (String.substring 1 (String.length r) (String c r))
    with (String.substring 0 (String.length r) r).
  apply substring_all.
Qed.

Lemma capitalizeWord_piece (x : string) :
  isNamePiece x = true -> capitalizeWord x = Some (capitalized x).
Proof.
  intros (c & r & -> & Hc & Hr)%isNamePiece_inv.
  unfold capitalizeWord. cbn [Js.charAt0 Js.toUpperCase].
  destruct (upperUnit_name_unit c Hc) as (-> & _).
  by rewrite sliceStrFrom_tail.
Qed.

Lemma mapM_capitalizeWord (l : list string) :
  Forall (fun p => isNamePiece p = true) l ->
  mapM capitalizeWord l = Some (map capitalized l).
Proof.
  intros Hall. apply mapM_Some. induction Hall as [|x l Hx _ IH]; simpl.
  - constructor.
  - constructor; [by apply capitalizeWord_piece|exact IH].
Qed.

Lemma join_empty_cons (x : string) (l : list string) :
  Js.join "" (x :: l) = x +:+ Js.join "" l.
Proof.
  destruct l as [|y l]; [simpl; by rewrite append_nil_r|].
  by rewrite join_cons, append_nil_l.
Qed.

Lemma capitalized_piece (x : string) :
  isNamePiece x = true ->
  allUnits isAlnumUnit (capitalized x) = true
  /\ allUnits isAlnumUnit x = true
  /\ Js.toLowerCase (capitalized x) = x
  /\ Js.toLowerCase x = x.
Proof.
  intros (c & r & -> & Hc & Hr)%isNamePiece_inv.
  destruct (upperUnit_name_unit c Hc) as (_ & Hup & Hlow & Hc' & Hal).
  assert (allUnits isAlnumUnit r = true) as Hr1.
  { eapply allUnits_impl; [|exact Hr]. intros d Hd.
    by destruct (upperUnit_name_unit d Hd) as (_ & _ & _ & _ & ?). }
  assert (Js.toLowerCase r = r) as Hr2.
  { clear -Hr. induction r as [|d r IH]; [done|]. simpl in *.
    apply andb_prop in Hr as [Hd Hr].
    destruct (upperUnit_name_unit d Hd) as (_ & _ & _ & -> & _).
    by rewrite IH. }
  simpl. by rewrite Hup, Hal, Hr1, Hlow, Hr2, Hc'.
Qed.

Lemma joined_pieces (l : list string) :
  Forall (fun p => isNamePiece p = true) l ->
  allUnits isAlnumUnit (Js.join "" (map capitalized l)) = true
  /\ Js.toLowerCase (Js.join "" (map capitalized l)) = Js.join "" l.
Proof.
  induction 1 as [|x l Hx _ [IH1 IH2]]; [done|].
  cbn [map]. rewrite !join_empty_cons, allUnits_append, toLowerCase_append.
  destruct (capitalized_piece x Hx) as (-> & _ & -> & _).
  by rewrite IH1, IH2.
Qed.

Lemma firstUnit_append (P : ascii -> bool) (x s : string) :
  x <> "" -> firstUnit P (x +:+ s) = firstUnit P x.
Proof. by destruct x. Qed.

(** X25.  For a module name that [MODULE_NAME_REGEX] accepts,
    [toPascalCase] and [toCamelCase] both give a name made of letters and
    digits only, the first beginning with a capital letter and the second
    with a small one; lowercased, each is the module name without its
    hyphens. *)
Theorem accepted_names_give_identifiers (s : string) :
  MODULE_NAME_REGEX_test s = true ->
  exists pascal camel,
    toPascalCase s = Some pascal
    /\ toCamelCase s = Some camel
    /\ allUnits isAlnumUnit pascal = true
    /\ firstUnit isUpperLetter pascal = true
    /\ allUnits isAlnumUnit camel = true
    /\ firstUnit isLowerLetter camel = true
    /\ Js.toLowerCase pascal = Js.join "" (Js.split "-"%char s)
    /\ Js.toLowerCase camel = Js.join "" (Js.split "-"%char s).
Proof.
  intros (x & l & Hs & Hall & Hx)%MODULE_NAME_REGEX_split.
  pose proof Hall as [Hp Hl]%Forall_cons.
  exists (Js.join "" (map capitalized (x :: l))),
    (x +:+ Js.join "" (map capitalized l)).
  unfold toPascalCase, toCamelCase. cbv zeta. rewrite Hs.
  rewrite (mapM_capitalizeWord (x :: l)) by done.
  assert (Js.sliceFrom (x :: l) 1 = l) as ->.
  { unfold Js.sliceFrom. rewrite slice_suffix by lia. reflexivity. }
  rewrite (mapM_capitalizeWord l) by done. cbn [nth].
  destruct (joined_pieces (x :: l) Hall) as [Hal Hlow].
  destruct (joined_pieces l Hl) as [Hal' Hlow'].
  destruct (capitalized_piece x Hp) as (_ & Hxal & _ & Hxlow).
  destruct (isNamePiece_inv x Hp) as (c & r & -> & _ & _).
  simpl in Hx.
  split; [done|]. split; [done|]. split; [exact Hal|]. split.
  { cbn [map]. rewrite join_empty_cons. simpl. by apply capitalOf_letter. }
  split; [by rewrite allUnits_append, Hxal, Hal'|].
  split; [by rewrite append_cons|].
  split; [exact Hlow|].
  by rewrite toLowerCase_append, Hxlow, Hlow', join_empty_cons.
Qed.

End DerivedNameFacts.

Lemma MODULE_NAME_REGEX_kebab_case_witness :
  MODULE_NAME_REGEX_test (Js.join "-" ["user"; "management"; "v2"]) = true.
Proof.
  apply (proj2 (MODULE_NAME_REGEX_kebab_case (Js.join "-" ["user"; "management"; "v2"]))).
  exists "user", ["management"; "v2"]. repeat split; repeat constructor.
Defined.

Lemma accepted_names_give_identifiers_witness :
  exists pascal camel,
    toPascalCase "user-management" = Some pascal
    /\ toCamelCase "user-management" = Some camel
    /\ allUnits isAlnumUnit pascal = true
    /\ firstUnit isUpperLetter pascal = true
    /\ allUnits isAlnumUnit camel = true
    /\ firstUnit isLowerLetter camel = true
    /\ Js.toLowerCase pascal = Js.join "" (Js.split "-"%char "user-management")
    /\ Js.toLowerCase camel = Js.join "" (Js.split "-"%char "user-management").
Proof. apply accepted_names_give_identifiers. reflexivity. Defined.

(** ** Decision trees *)

Lemma wellFormedTree_check (t : DecisionTree) :
  head (map DN.id (DT.nodes t)) = Some "start" ->
  NoDup (map DN.id (DT.nodes t)) ->
  forallb (fun '(i, n) =>
             xorb (isAnswer (DN.yes n)) (pointsLater (DT.nodes t) i (DN.yes n))
             && xorb (isAnswer (DN.no n)) (pointsLater (DT.nodes t) i (DN.no n)))
    (imap pair (DT.nodes t)) = true ->
  forallb (isTarget (DT.nodes t)) (tail (DT.nodes t)) = true ->
  wellFormedTree t.
Proof.
  intros Hstart Hnd Hedges Htargets.
  split; [done|]. split; [done|]. split.
  - intros i n Hi. rewrite forallb_forall in Hedges.
    specialize (Hedges (i, n)). cbv beta iota in Hedges.
    apply andb_prop, Hedges.
    apply list_elem_of_In, list_elem_of_lookup. exists i.
    by rewrite list_lookup_imap, Hi.
  - apply Forall_forall. intros n Hn. rewrite forallb_forall in Htargets.
    by apply Htargets, list_elem_of_In.
Qed.

(** X26.  The three decision trees of the table are well formed: each
    begins with the node start, has distinct node ids, every yes and no
    edge is either an answer text or the id of a node further down the list,
    never both, so every walk ends in an answer, and every other node is the
    target of an edge.  The ids of the trees are distinct, and
    [findDecisionTreeById] finds each tree by its id and nothing for any
    other id. *)
Theorem DECISION_TREES_wellFormed :
  Forall wellFormedTree DECISION_TREES
  /\ NoDup (map DT.id DECISION_TREES)
  /\ (forall t, t ∈ DECISION_TREES -> findDecisionTreeById (DT.id t) = Some t)
  /\ (forall i, findDecisionTreeById i = None <-> i ∉ map DT.id DECISION_TREES).
Proof.
  assert (NoDup (map DT.id DECISION_TREES)) as Hnd
    by (apply (bool_decide_unpack _); by vm_compute).
  split.
  { repeat (apply Forall_cons; split;
            [apply wellFormedTree_check;
             [reflexivity
             |apply (bool_decide_unpack _); by vm_compute
             |by vm_compute
             |by vm_compute]|]).
    constructor. }
  split; [exact Hnd|]. split.
  - intros t Ht. by apply (find_NoDup DT.id).
  - intros i. apply (find_None DT.id).
Qed.

(** ** A context without tokens *)

(** X27.  When the context leaves no token after tokenizing and removing
    the stop words (it is empty, or made of stop words, single letters and
    punctuation only), every entry scores 0 and search-by-context answers
    its empty message alone. *)
Theorem searchByContext_without_tokens (RULES : list ArchitectureRule)
    (ANTI_PATTERNS : list AntiPattern) (context : string) :
  removeStopWords (tokenize context) = [] ->
  (forall E, scoreRuleByTokens E (removeStopWords (tokenize context))
               (detectCategoryBoosts (removeStopWords (tokenize context))) = 0)
  /\ searchByContext RULES ANTI_PATTERNS context
     = {| content := ["No rules found matching that context."] |}.
Proof.
  intros Hno. split; [intros E; by rewrite Hno|].
  unfold searchByContext. cbv zeta. rewrite Hno.
  assert (forall l : list ArchitectureRule,
            rankRules l (fun rule => scoreRuleByTokens rule [] (detectCategoryBoosts []))
            = []) as Hrank.
  { intros l. apply rankRules_nil_iff. apply Forall_forall. intros E _.
    by change (scoreRuleByTokens E [] (detectCategoryBoosts [])) with 0. }
  rewrite !Hrank. apply formatSearchResults_nil.
Qed.

Lemma searchByContext_without_tokens_witness :
  searchByContext [thinRoutes] [godModule] "The, a; of... I?"
  = {| content := ["No rules found matching that context."] |}.
Proof.
  apply (proj2 (searchByContext_without_tokens [thinRoutes] [godModule]
                  "The, a; of... I?" ltac:(by vm_compute))).
Defined.

(** ** Anti-patterns by category *)

(** X28.  [filterAntiPatternsByCategory] with the string of a category
    keeps exactly the anti-patterns of that category, in table order; with a
    string that is no category it keeps none. *)
Theorem filterAntiPatternsByCategory_keeps_the_category
    (ANTI_PATTERNS : list AntiPattern) (c : RuleCategory) (s : string) :
  filterAntiPatternsByCategory ANTI_PATTERNS (categoryString c)
  = filter (fun ap => AP.category ap = c) ANTI_PATTERNS
  /\ sublist (filterAntiPatternsByCategory ANTI_PATTERNS s) ANTI_PATTERNS
  /\ (isValidCategory s = false -> filterAntiPatternsByCategory ANTI_PATTERNS s = []).
Proof.
  unfold filterAntiPatternsByCategory. split; [|split].
  - induction ANTI_PATTERNS as [|ap aps IH]; [done|].
    cbn [List.filter]. rewrite filter_cons, IH.
    destruct (decide (AP.category ap = c)) as [->|Hne].
    + by rewrite (proj2 (strictEq_true _ _) eq_refl).
    + assert (Js.strictEq (categoryString (AP.category ap)) (categoryString c) = false)
        as ->; [|done].
      apply strictEq_false. intros H. by apply Hne, categoryString_inj.
  - induction ANTI_PATTERNS as [|ap aps IH]; [done|].
    cbn [List.filter]. destruct (Js.strictEq _ _); by constructor.
  - intros Hs. induction ANTI_PATTERNS as [|ap aps IH]; [done|].
    cbn [List.filter].
    destruct (Js.strictEq (categoryString (AP.category ap)) s) eqn:E; [|exact IH].
    apply strictEq_true in E.
    assert (isValidCategory s = true) by (apply isValidCategory_true; eauto).
    congruence.
Qed.

Lemma filterAntiPatternsByCategory_keeps_the_category_witness :
  filterAntiPatternsByCategory [godModule] "structure" = [].
Proof.
  apply (proj2 (proj2 (filterAntiPatternsByCategory_keeps_the_category
                         [godModule] Migration "structure"))).
  reflexivity.
Defined.
